(** * Helios live streaming server: the data generator and the WebSocket
      server of [streaming-server.py] (and its twin in
      [streaming-demo-server.py]), embedded as Rocq functions.

    Conventions of the embedding.
    - A Python [float] is an exact rational ([Q]); equality of numbers is
      [==] and the order is [<=] on [Q].  Round-off of the binary format is
      outside the model.
    - The entropy source ([random.random], the normal deviate behind
      [random.gauss]) and the wall clock ([time.time], [datetime.now]) are
      oracles indexed by a cursor that every effectful call advances.
    - Exceptions are values of [exn]; a computation that can raise returns
      a [result].
    - The event loop runs one task at a time; a task runs from one
      suspension point to the next as one atomic step.  The suspension
      points are the wait for the next inbound frame, [asyncio.sleep] in the
      streaming loop and [asyncio.sleep] in the stats loop;
      [await websocket.send] delivers or raises without letting another
      task run.
    - Inbound frames are text frames; [json.loads] is modelled by its
      outcome, a parsed value or [JSONDecodeError]. *)

From Stdlib Require Import ZArith QArith Qround Qminmax Qabs Lqa Lia.
From Stdlib Require Import String Ascii List DecimalString.
From stdpp Require Import gmap.
Import ListNotations.

Local Open Scope string_scope.
Set Warnings "-register-all".

(** ** Exceptions and results *)

Inductive exn : Type :=
| AttributeError
| TypeError
| OverflowError
| KeyError
| JSONDecodeError
| ConnectionClosed.

Inductive result (A : Type) : Type :=
| Return (a : A)
| Raise (e : exn).

Arguments Return {A} a.
Arguments Raise {A} e.

(** ** JSON values, as [json.loads] builds them *)

Inductive json : Type :=
| JNull
| JBool (b : bool)
| JInt (z : Z)
| JFloat (q : Q)
| JStr (s : string)
| JArr (items : list json)
| JObj (fields : list (string * json)).

(** ** Numbers *)

(** [x < y] on numbers, as a test. *)
Definition Qltb (x y : Q) : bool := negb (Qle_bool y x).

(** [int(x)]: truncation toward zero. *)
Definition py_int (x : Q) : Z := Z.quot (Qnum x) (Zpos (Qden x)).

(** Nearest integer, ties to the even one. *)
Definition round_half_even (x : Q) : Z :=
  let f := Qfloor x in
  let r := (x - inject_Z f)%Q in
  match (r ?= 1 # 2)%Q with
  | Lt => f
  | Gt => (f + 1)%Z
  | Eq => if Z.even f then f else (f + 1)%Z
  end.

(** [round(x, 2)]. *)
Definition round2 (x : Q) : Q :=
  (inject_Z (round_half_even (x * 100)) / 100)%Q.

(** ** The entropy source and the clock *)

Record Entropy : Type := {
  unit_draw : nat -> Q;     (* random.random(), a number of [0, 1] *)
  normal_draw : nat -> Q;   (* the standard normal deviate of random.gauss *)
  clock : nat -> Q          (* time.time() and datetime.now(), in seconds *)
}.

(** The draws of [random.random] lie in the unit interval. *)
Definition unit_bounded (E : Entropy) : Prop :=
  forall n, (0 <= unit_draw E n <= 1)%Q.

(** ** DataGenerator *)

Record DataGenerator : Type := {
  source_type : json;
  base_values : list (string * Q);   (* a dict, in insertion order *)
  trend : Q;
  volatility : Q
}.

Record Metadata : Type := {
  sequence : Z;
  quality : Q;
  anomaly_score : Q
}.

Record DataPoint : Type := {
  dp_timestamp : Q;
  dp_source : json;
  dp_data : list (string * Q);
  dp_metadata : Metadata
}.

(** [source_type == name], for a string literal [name]. *)
Definition is_source (s : json) (name : string) : bool :=
  match s with
  | JStr t => String.eqb t name
  | _ => false
  end.

(** Keep a value within reasonable bounds (lines 89-95). *)
Definition clamp (key : string) (base_value new_value : Q) : Q :=
  if String.eqb key "price" && Qltb new_value 0 then
    (base_value * (1 # 10))%Q
  else if (String.eqb key "humidity" || String.eqb key "dominance")
          && (Qltb new_value 0 || Qltb 100 new_value) then
    Qmax 0 (Qmin 100 new_value)
  else if String.eqb key "temperature"
          && (Qltb new_value (-50) || Qltb 60 new_value) then
    Qmax (-50) (Qmin 60 new_value)
  else new_value.

(** The body of the loop over the fields once [seasonal] and [noise] are
    known (lines 87-98): the pair of the value written to
    [data["data"][key]] and of the value written to [self.base_values[key]]. *)
Definition update_field (key : string) (base_value trend seasonal noise : Q)
  : Q * Q :=
  let new_value := (base_value * (1 + trend + seasonal + noise))%Q in
  let new_value := clamp key base_value new_value in
  (round2 new_value, new_value).

Section Generator.

(** The attribute [sin] of the module [random], as the lookup [random.sin]
    finds it when the loop body runs: [None] when the module has no such
    attribute. *)
Variable random_sin : option (Q -> Q).

Variable E : Entropy.

(** [random.uniform(a, b)], reading the draw at cursor [n]. *)
Definition uniform (a b : Q) (n : nat) : Q :=
  (a + (b - a) * unit_draw E n)%Q.

(** [random.gauss(mu, sigma)], reading the draw at cursor [n]. *)
Definition gauss (mu sigma : Q) (n : nat) : Q :=
  (mu + normal_draw E n * sigma)%Q.

(** [_init_base_values]: the dict and the advanced cursor. *)
Definition init_base_values (src : json) (n : nat)
  : list (string * Q) * nat :=
  if is_source src "stock" then
    ([("price", 100 + uniform (-20) 20 n);
      ("volume", 1000000);
      ("market_cap", 1000000000)]%Q, n + 1)
  else if is_source src "sensor" then
    ([("temperature", 20 + uniform (-5) 15 n);
      ("humidity", 50 + uniform (-20) 20 (n + 1));
      ("pressure", (101325 # 100) + uniform (-50) 50 (n + 2));
      ("light", uniform 0 1000 (n + 3))]%Q, n + 4)
  else if is_source src "network" then
    ([("bandwidth", uniform 100 1000 n);
      ("latency", 10 + uniform 0 50 (n + 1));
      ("packets", uniform 1000 10000 (n + 2));
      ("errors", uniform 0 10 (n + 3))]%Q, n + 4)
  else if is_source src "crypto" then
    ([("price", 50000 + uniform (-10000) 20000 n);
      ("volume", uniform 100000000 1000000000 (n + 1));
      ("market_cap", 1000000000000);
      ("dominance", uniform 40 60 (n + 2))]%Q, n + 3)
  else if is_source src "weather" then
    ([("temperature", 15 + uniform (-10) 25 n);
      ("humidity", 40 + uniform (-20) 40 (n + 1));
      ("wind_speed", uniform 0 30 (n + 2));
      ("pressure", (101325 # 100) + uniform (-40) 40 (n + 3));
      ("precipitation", uniform 0 10 (n + 4))]%Q, n + 5)
  else
    ([("value", 50)]%Q, n).

(** [DataGenerator.__init__]. *)
Definition DataGenerator_init (src : json) (n : nat) : DataGenerator * nat :=
  let '(bv, n1) := init_base_values src n in
  ({| source_type := src;
      base_values := bv;
      trend := uniform (-(1 # 1000)) (1 # 1000) n1;
      volatility := 2 # 100 |}, n1 + 1).

(** The loop [for key, base_value in self.base_values.items()] (lines
    83-98).  [items] are the entries still to visit, [done] the entries
    already rewritten and [out] the dict [data["data"]] built so far, both
    in reverse.  The result carries the dict [self.base_values] as the loop
    leaves it, also when the body raises. *)
Fixpoint update_fields (t vol : Q) (items done out : list (string * Q))
    (n : nat) : list (string * Q) * nat * result (list (string * Q)) :=
  match items with
  | [] => (rev done, n, Return (rev out))
  | (key, base_value) :: rest =>
      match random_sin with
      | None => ((rev done ++ items)%list, n, Raise AttributeError)
      | Some sin =>
          let seasonal := ((1 # 10) * sin (clock E n / 3600))%Q in
          let noise := gauss 0 vol (n + 1) in
          let '(shown, stored) :=
            update_field key base_value t seasonal noise in
          update_fields t vol rest
            ((key, stored) :: done) ((key, shown) :: out) (n + 2)
      end
  end.

(** [generate_data_point]: the generator as the call leaves it, the
    advanced cursor, and the data point or the exception raised. *)
Definition generate_data_point (g : DataGenerator) (n : nat)
  : DataGenerator * nat * result DataPoint :=
  let timestamp := clock E n in
  let t := (trend g + uniform (-(1 # 10000)) (1 # 10000) (n + 1))%Q in
  let t := Qmax (-(5 # 1000)) (Qmin (5 # 1000) t) in
  let '(bv, n1, r) := update_fields t (volatility g) (base_values g) [] [] (n + 2) in
  let g' := {| source_type := source_type g;
               base_values := bv;
               trend := t;
               volatility := volatility g |} in
  match r with
  | Raise e => (g', n1, Raise e)
  | Return data =>
      let md := {| sequence := (py_int (clock E n1 * 1000) mod 1000000)%Z;
                   quality := uniform (95 # 100) 1 (n1 + 1);
                   anomaly_score := uniform 0 (1 # 10) (n1 + 2) |} in
      (g', n1 + 3,
       Return {| dp_timestamp := timestamp;
                 dp_source := source_type g;
                 dp_data := data;
                 dp_metadata := md |})
  end.

(** [calls] successive calls of [generate_data_point] on one generator,
    whatever each call returns or raises. *)
Fixpoint generate_many (calls : nat) (g : DataGenerator) (n : nat)
  : DataGenerator * nat :=
  match calls with
  | O => (g, n)
  | S k =>
      let '(g', n', _) := generate_data_point g n in
      generate_many k g' n'
  end.

End Generator.

(** ** The server *)

(** A connection object ([websocket]), by identity. *)
Definition ws : Type := nat.

(** The messages the server sends, before [json.dumps]. *)
Inductive Msg : Type :=
| Welcome (client_id : string) (timestamp : Q)
    (available_sources : list string) (version : string) (uptime : Q)
    (clients_connected : nat)
| Subscribed (source frequency : json) (timestamp : Q)
| Unsubscribed (timestamp : Q)
| Pong (timestamp : Q)
| Error (message : string) (timestamp : Q)
| Data (source : json) (data : DataPoint) (timestamp : Q)
| ServerStats (timestamp : Q) (clients_connected : nat)
    (active_sources : list json) (uptime : Q) (memory_usage : string)
    (data_points_sent : nat).

(** An inbound text frame, by what [json.loads] makes of it. *)
Inductive frame : Type :=
| Malformed (text : string)
| Json (v : json).

Definition json_loads (m : frame) : result json :=
  match m with
  | Malformed _ => Raise JSONDecodeError
  | Json v => Return v
  end.

(** What the server prints. *)
Inductive line : Type :=
| ClientConnected (client_id : string) (total : nat)
| ClientDisconnected (client_id : string) (total : nat)
| ErrorHandling (e : exn).

(** [StreamingServer]: the attributes the handlers read and write. *)
Record StreamingServer : Type := {
  clients : gset ws;
  data_generators : list (json * DataGenerator);  (* a dict, in insertion order *)
  running : bool
}.

(** Where the coroutine [register_client] of a connection is suspended, or
    how it ended. *)
Inductive suspension : Type :=
| AwaitMessage                          (* in [async for message in websocket] *)
| Sleeping (source frequency : json)    (* in [asyncio.sleep] of [start_streaming] *)
| Returned
| Failed (e : exn).

Record task : Type := {
  client_id : string;     (* the local [client_id] of the coroutine *)
  at_point : suspension
}.

(** The server together with its surroundings: the handler tasks, the frames
    received and not yet read, the connections that are closed, what was
    delivered to each peer and printed (both most recent first), and the
    cursor of the entropy source. *)
Record World : Type := {
  server : StreamingServer;
  tasks : gmap ws task;
  inbox : gmap ws (list frame);
  gone : gset ws;
  outbox : list (ws * Msg);
  printed : list line;
  cursor : nat
}.

Definition set_server (S : StreamingServer) (W : World) : World :=
  {| server := S; tasks := tasks W; inbox := inbox W; gone := gone W;
     outbox := outbox W; printed := printed W; cursor := cursor W |}.

Definition set_clients (c : gset ws) (W : World) : World :=
  set_server {| clients := c;
                data_generators := data_generators (server W);
                running := running (server W) |} W.

Definition set_data_generators (d : list (json * DataGenerator)) (W : World)
  : World :=
  set_server {| clients := clients (server W);
                data_generators := d;
                running := running (server W) |} W.

Definition set_tasks (t : gmap ws task) (W : World) : World :=
  {| server := server W; tasks := t; inbox := inbox W; gone := gone W;
     outbox := outbox W; printed := printed W; cursor := cursor W |}.

Definition set_inbox (i : gmap ws (list frame)) (W : World) : World :=
  {| server := server W; tasks := tasks W; inbox := i; gone := gone W;
     outbox := outbox W; printed := printed W; cursor := cursor W |}.

Definition set_gone (g : gset ws) (W : World) : World :=
  {| server := server W; tasks := tasks W; inbox := inbox W; gone := g;
     outbox := outbox W; printed := printed W; cursor := cursor W |}.

Definition set_outbox (o : list (ws * Msg)) (W : World) : World :=
  {| server := server W; tasks := tasks W; inbox := inbox W; gone := gone W;
     outbox := o; printed := printed W; cursor := cursor W |}.

Definition set_printed (p : list line) (W : World) : World :=
  {| server := server W; tasks := tasks W; inbox := inbox W; gone := gone W;
     outbox := outbox W; printed := p; cursor := cursor W |}.

Definition set_cursor (n : nat) (W : World) : World :=
  {| server := server W; tasks := tasks W; inbox := inbox W; gone := gone W;
     outbox := outbox W; printed := printed W; cursor := n |}.

(** A freshly built [StreamingServer] whose [start_server] has set
    [running], before any connection. *)
Definition initial_world : World :=
  {| server := {| clients := ∅; data_generators := []; running := true |};
     tasks := ∅; inbox := ∅; gone := ∅;
     outbox := []; printed := []; cursor := 0 |}.

(** *** A state and exception monad over the world *)

Definition M (A : Type) : Type := World -> World * result A.

Definition ret {A : Type} (a : A) : M A := fun W => (W, Return a).

Definition raise {A : Type} (e : exn) : M A := fun W => (W, Raise e).

Definition bind {A B : Type} (m : M A) (k : A -> M B) : M B :=
  fun W =>
    match m W with
    | (W', Return a) => k a W'
    | (W', Raise e) => (W', Raise e)
    end.

Notation "'do' x <- m ; k" := (bind m (fun x => k))
  (at level 10, x name, m at level 100, k at level 200,
   format "'[v' 'do'  x  <-  m ; '/' k ']'").
Notation "'run' m ; k" := (bind m (fun _ => k))
  (at level 10, m at level 100, k at level 200,
   format "'[v' 'run'  m ; '/' k ']'").

(** [try: m  except <the classes h answers>: h e]. *)
Definition try_except {A : Type} (m : M A) (h : exn -> option (M A)) : M A :=
  fun W =>
    match m W with
    | (W', Return a) => (W', Return a)
    | (W', Raise e) =>
        match h e with
        | Some k => k W'
        | None => (W', Raise e)
        end
    end.

Definition get {A : Type} (f : World -> A) : M A := fun W => (W, Return (f W)).

Definition modify (f : World -> World) : M unit := fun W => (f W, Return tt).

Definition lift {A : Type} (r : result A) : M A := fun W => (W, r).

(** [print(...)]. *)
Definition print (l : line) : M unit :=
  modify (fun W => set_printed (l :: printed W) W).

(** [time.time()], and [datetime.now()] for the timestamps. *)
Definition now (E : Entropy) : M Q :=
  fun W => (set_cursor (cursor W + 1) W, Return (clock E (cursor W))).

(** [await websocket.send(json.dumps(msg))]: delivered, or
    [ConnectionClosed] on a closed connection. *)
Definition send (w : ws) (msg : Msg) : M unit :=
  fun W =>
    if decide (w ∈ gone W) then (W, Raise ConnectionClosed)
    else (set_outbox ((w, msg) :: outbox W) W, Return tt).

(** *** Python dicts keyed by JSON values *)

(** The number a JSON value compares as, if it is one ([True == 1]). *)
Definition numeric (v : json) : option Q :=
  match v with
  | JBool b => Some (if b then 1 else 0)%Q
  | JInt z => Some (inject_Z z)
  | JFloat q => Some q
  | _ => None
  end.

(** Lists and dicts have no hash. *)
Definition hashable (v : json) : bool :=
  match v with
  | JArr _ | JObj _ => false
  | _ => true
  end.

(** [a == b] on hashable JSON values. *)
Definition py_eq (a b : json) : bool :=
  match a, b with
  | JNull, JNull => true
  | JStr s, JStr t => String.eqb s t
  | _, _ =>
      match numeric a, numeric b with
      | Some x, Some y => Qeq_bool x y
      | _, _ => false
      end
  end.

(** [d[key]] for a key that hashes. *)
Fixpoint dict_lookup {V : Type} (d : list (json * V)) (key : json) : option V :=
  match d with
  | [] => None
  | (k, v) :: rest => if py_eq k key then Some v else dict_lookup rest key
  end.

(** The entry of [key] rewritten in place. *)
Fixpoint dict_update {V : Type} (d : list (json * V)) (key : json) (v : V)
  : list (json * V) :=
  match d with
  | [] => []
  | (k, x) :: rest =>
      if py_eq k key then (k, v) :: rest else (k, x) :: dict_update rest key v
  end.

(** [key in d]: hashing the key comes first. *)
Definition dict_contains {V : Type} (d : list (json * V)) (key : json)
  : result bool :=
  if hashable key then
    Return (match dict_lookup d key with Some _ => true | None => false end)
  else Raise TypeError.

(** The member [key] of a parsed JSON object; of two members of one name
    [json.loads] keeps the later one. *)
Fixpoint obj_get (fields : list (string * json)) (key : string) : option json :=
  match fields with
  | [] => None
  | (k, v) :: rest =>
      match obj_get rest key with
      | Some v' => Some v'
      | None => if String.eqb k key then Some v else None
      end
  end.

(** [data.get(key, default)]: only a dict has the method. *)
Definition data_get (data : json) (key : string) (default : json)
  : result json :=
  match data with
  | JObj fields =>
      Return (match obj_get fields key with Some v => v | None => default end)
  | _ => Raise AttributeError
  end.

(** [v == name], for a string literal [name]. *)
Definition is_str (v : json) (name : string) : bool :=
  match v with
  | JStr s => String.eqb s name
  | _ => false
  end.

(** The decimal numeral of [n], as an f-string prints it. *)
Definition decimal (n : nat) : string := NilZero.string_of_uint (Nat.to_uint n).

(** The largest magnitude of an [int] that converts to a [float]:
    from [2^1024 - 2^970] on the conversion overflows. *)
Definition float_overflow : Z := (2 ^ 1024 - 2 ^ 970)%Z.

(** [frequency / 1000.0]. *)
Definition sleep_seconds (frequency : json) : result Q :=
  match frequency with
  | JBool b => Return ((if b then 1 else 0) / 1000)%Q
  | JInt z =>
      if (Z.abs z <? float_overflow)%Z then Return (inject_Z z / 1000)%Q
      else Raise OverflowError
  | JFloat q => Return (q / 1000)%Q
  | _ => Raise TypeError
  end.

(** How far a message handler got: to its end, or to the [asyncio.sleep] of
    the streaming loop. *)
Inductive progress : Type :=
| Completed
| Asleep (source frequency : json).

Section Server.

Variable random_sin : option (Q -> Q).
Variable E : Entropy.

(** [self.data_generators[source] = DataGenerator(source)]. *)
Definition create_generator (source : json) : M unit :=
  fun W =>
    let '(g, n) := DataGenerator_init E source (cursor W) in
    (set_cursor n
       (set_data_generators
          (data_generators (server W) ++ [(source, g)])%list W),
     Return tt).

(** [generator.generate_data_point()] on the generator object registered
    under [source]: the object is shared, and the call rewrites it in
    place also when it raises. *)
Definition generate (source : json) : M DataPoint :=
  fun W =>
    match dict_lookup (data_generators (server W)) source with
    | None => (W, Raise KeyError)
    | Some g =>
        let '(g', n, r) := generate_data_point random_sin E g (cursor W) in
        (set_cursor n
           (set_data_generators
              (dict_update (data_generators (server W)) source g') W),
         r)
    end.

(** One turn of the loop of [start_streaming] (lines 203-217), from the
    test of the [while] to the suspension in [asyncio.sleep], inside the
    [try] that swallows [ConnectionClosed]. *)
Definition streaming_loop (w : ws) (source frequency : json) : M progress :=
  try_except
    (do present <- get (fun W => bool_decide (w ∈ clients (server W)));
     if present : bool then
       do data_point <- generate source;
       do t <- now E;
       run send w (Data source data_point t);
       do _ <- lift (sleep_seconds frequency);
       ret (Asleep source frequency)
     else ret Completed)
    (fun e => match e with
              | ConnectionClosed => Some (ret Completed)
              | _ => None
              end).

(** [start_streaming], up to the first suspension of its loop. *)
Definition start_streaming (w : ws) (source frequency : json) : M progress :=
  do gens <- get (fun W => data_generators (server W));
  do _ <- lift (match dict_lookup gens source with
                | Some g => Return g
                | None => Raise KeyError
                end);
  do t <- now E;
  run send w (Subscribed source frequency t);
  streaming_loop w source frequency.

(** The two [except] clauses of [handle_client_message] (lines 181-188),
    around a body that runs inside its [try]. *)
Definition guarded (w : ws) (body : M progress) : M progress :=
  try_except body
    (fun e => match e with
              | JSONDecodeError =>
                  Some (do t <- now E;
                        run send w (Error "Invalid JSON message" t);
                        ret Completed)
              | _ => Some (run print (ErrorHandling e); ret Completed)
              end).

(** The body of the [try] of [handle_client_message] (lines 153-179). *)
Definition dispatch (w : ws) (message : frame) : M progress :=
  do data <- lift (json_loads message);
  do msg_type <- lift (data_get data "type" JNull);
  if is_str msg_type "subscribe" then
    do source <- lift (data_get data "source" (JStr "stock"));
    do frequency <- lift (data_get data "frequency" (JInt 500));
    do gens <- get (fun W => data_generators (server W));
    do known <- lift (dict_contains gens source);
    run (if known : bool then ret tt else create_generator source);
    start_streaming w source frequency
  else if is_str msg_type "unsubscribe" then
    do t <- now E;
    run send w (Unsubscribed t);
    ret Completed
  else if is_str msg_type "ping" then
    do t <- now E;
    run send w (Pong t);
    ret Completed
  else ret Completed.

(** [handle_client_message], up to its end or to the first suspension of
    the streaming loop it started. *)
Definition handle_client_message (w : ws) (message : frame) : M progress :=
  guarded w (dispatch w message).

(** The streaming loop of a handler waking from [asyncio.sleep]: the next
    turn runs in the frames that were suspended, those of
    [start_streaming] and of [handle_client_message]. *)
Definition resume_streaming (w : ws) (source frequency : json) : M progress :=
  guarded w (streaming_loop w source frequency).

(** The [except] and [finally] clauses of [register_client] (lines
    144-148), given how its [try] ended. *)
Definition register_client_exit (w : ws) (cid : string) (r : result unit)
  : M unit :=
  do present <- get (fun W => bool_decide (w ∈ clients (server W)));
  if present : bool then
    run modify (fun W => set_clients (clients (server W) ∖ {[w]}) W);
    do total <- get (fun W => size (clients (server W)));
    run print (ClientDisconnected cid total);
    lift (match r with
          | Raise ConnectionClosed => Return tt
          | _ => r
          end)
  else raise KeyError.

(** How the coroutine of a connection ended. *)
Definition ended (r : result unit) : suspension :=
  match r with
  | Return _ => Returned
  | Raise e => Failed e
  end.

(** The task of [w] left at [s]. *)
Definition park (w : ws) (cid : string) (s : suspension) (W : World) : World :=
  set_tasks (<[w := {| client_id := cid; at_point := s |}]> (tasks W)) W.

(** The coroutine leaves its [try] with [r] and runs to its end. *)
Definition finish (w : ws) (cid : string) (r : result unit) (W : World)
  : World :=
  let '(W', r') := register_client_exit w cid r W in
  park w cid (ended r') W'.

(** The coroutine goes on after a message handler came back. *)
Definition after_handler (w : ws) (cid : string)
    (out : World * result progress) : World :=
  match out with
  | (W', Return Completed) => park w cid AwaitMessage W'
  | (W', Return (Asleep source frequency)) =>
      park w cid (Sleeping source frequency) W'
  | (W', Raise e) => finish w cid (Raise e) W'
  end.

(** [register_client] from its start to its first suspension (lines
    121-141). *)
Definition register_client (w : ws) (W : World) : World :=
  let W := set_clients ({[w]} ∪ clients (server W)) W in
  let cid := "client_" ++ decimal (size (clients (server W))) in
  let '(W, r) :=
    (run print (ClientConnected cid (size (clients (server W))));
     do t <- now E;
     do uptime <- now E;
     do total <- get (fun W => size (clients (server W)));
     send w (Welcome cid t ["stock"; "sensor"; "network"; "crypto"; "weather"]
               "1.0.0" uptime total)) W in
  match r with
  | Return _ => park w cid AwaitMessage W
  | Raise e => finish w cid (Raise e) W
  end.

(** The sends of one sweep of [broadcast_server_stats] (lines 236-241). *)
Fixpoint sweep (cs : list ws) (stats : Msg) (disconnected : gset ws)
  : M (gset ws) :=
  match cs with
  | [] => ret disconnected
  | client :: rest =>
      do d <- try_except
                (run send client stats; ret disconnected)
                (fun e => match e with
                          | ConnectionClosed =>
                              Some (ret ({[client]} ∪ disconnected))
                          | _ => None
                          end);
      sweep rest stats d
  end.

(** One turn of the loop of [broadcast_server_stats] (lines 221-244), up
    to its [asyncio.sleep(5)]. *)
Definition broadcast_server_stats : M unit :=
  do S <- get server;
  if running S then
    if bool_decide (clients S ≠ ∅) then
      do t <- now E;
      do uptime <- now E;
      let stats :=
        ServerStats t (size (clients S)) (map fst (data_generators S))
          uptime "N/A"
          (list_sum (map (fun kv => length (base_values (snd kv)))
                       (data_generators S))) in
      do disconnected <- sweep (elements (clients S)) stats ∅;
      modify (fun W => set_clients (clients (server W) ∖ disconnected) W)
    else ret tt
  else ret tt.

(** *** The event loop *)

Inductive event : Type :=
| Connect (w : ws)                 (* a connection is handed to [register_client] *)
| Receive (w : ws) (m : frame)     (* a frame arrives from the peer *)
| Drop (w : ws)                    (* the connection closes *)
| Resume (w : ws)                  (* the handler task of [w] is scheduled *)
| Tick.                            (* the stats task wakes from its sleep *)

(** The handler task of [w] runs from where it is suspended to its next
    suspension, or to its end. *)
Definition resume (w : ws) (W : World) : World :=
  match tasks W !! w with
  | Some {| client_id := cid; at_point := AwaitMessage |} =>
      match inbox W !! w with
      | Some (m :: rest) =>
          after_handler w cid
            (handle_client_message w m (set_inbox (<[w := rest]> (inbox W)) W))
      | _ =>
          if decide (w ∈ gone W) then finish w cid (Return tt) W else W
      end
  | Some {| client_id := cid; at_point := Sleeping source frequency |} =>
      after_handler w cid (resume_streaming w source frequency W)
  | _ => W
  end.

Definition step (W : World) (ev : event) : World :=
  match ev with
  | Connect w =>
      match tasks W !! w with
      | None => register_client w W
      | Some _ => W
      end
  | Receive w m =>
      if decide (w ∈ gone W) then W
      else set_inbox (<[w := (default [] (inbox W !! w) ++ [m])%list]> (inbox W)) W
  | Drop w => set_gone ({[w]} ∪ gone W) W
  | Resume w => resume w W
  | Tick => fst (broadcast_server_stats W)
  end.

(** The world after a schedule of events. *)
Definition run_events (evs : list event) (W : World) : World :=
  fold_left step evs W.

End Server.

(** ** What the statements below talk about *)

(** The module [random] of CPython imports [math.sin] under the private name
    [_sin] and binds no attribute [sin]: the lookup [random.sin] of line 85
    finds nothing. *)
Definition cpython_random_sin : option (Q -> Q) := None.

(** The bounds of the clamp policy on the value of the field [key]. *)
Definition within_bounds (key : string) (v : Q) : Prop :=
  (key = "temperature" -> (-50 <= v <= 60)%Q) /\
  (key = "humidity" \/ key = "dominance" -> (0 <= v <= 100)%Q) /\
  (key = "price" -> (0 <= v)%Q).


(** The trend band. *)
Definition in_band (t : Q) : Prop := (-(5 # 1000) <= t <= 5 # 1000)%Q.

(** The subscription of [w] that is in force after the messages [sent]
    (most recent first): the source and frequency of the last [subscribed]
    acknowledgment, unless an [unsubscribed] reply came after it. *)
Fixpoint subscription (w : ws) (sent : list (ws * Msg)) : option (json * json) :=
  match sent with
  | [] => None
  | (w', m) :: older =>
      if Nat.eqb w' w then
        match m with
        | Subscribed s f _ => Some (s, f)
        | Unsubscribed _ => None
        | _ => subscription w older
        end
      else subscription w older
  end.

(** Every data message follows an acknowledgment of a subscription to its
    source that is still in force when the data message is sent. *)
Definition data_follows_ack (sent : list (ws * Msg)) : Prop :=
  forall newer older w s dp t,
    sent = (newer ++ (w, Data s dp t) :: older)%list ->
    exists f, subscription w older = Some (s, f).

(** What the loop writes to [data["data"]] for a stored entry. *)
Definition shown_of (kv : string * Q) : string * Q := (fst kv, round2 (snd kv)).

(** An entropy source for the examples: every draw of [random.random] is
    one half, every normal deviate one third, and the clock counts the
    readings. *)
Definition steady : Entropy :=
  {| unit_draw := fun _ => 1 # 2;
     normal_draw := fun _ => 1 # 3;
     clock := fun n => inject_Z (Z.of_nat n) |}.

(** A generator for the examples, as a sensor source could hold it. *)
Definition sample_generator : DataGenerator :=
  {| source_type := JStr "sensor";
     base_values := [("temperature", 59); ("humidity", 99); ("pressure", 1000)]%Q;
     trend := 0;
     volatility := 2 # 100 |}.

(** The replies of the handler that start or end no subscription. *)
Definition is_reply (msg : Msg) : Prop :=
  match msg with
  | Error _ _ | Pong _ | Unsubscribed _ => True
  | _ => False
  end.

(** What one run of [handle_client_message] for [w] can add to the delivered
    messages [ob], and how it then ends: nothing, one reply, the
    acknowledgment of a subscription, or the acknowledgment followed by the
    first data message. *)
Inductive handled (w : ws) (ob : list (ws * Msg))
  : list (ws * Msg) -> result progress -> Prop :=
| handled_silent r :
    r = Return Completed \/ r = Raise ConnectionClosed -> handled w ob ob r
| handled_reply msg :
    is_reply msg -> handled w ob ((w, msg) :: ob) (Return Completed)
| handled_ack s f t :
    handled w ob ((w, Subscribed s f t) :: ob) (Return Completed)
| handled_stream s f t dp t' r :
    r = Return Completed \/ r = Return (Asleep s f) ->
    handled w ob ((w, Data s dp t') :: (w, Subscribed s f t) :: ob) r.

(** What one turn of the streaming loop of [w] can add to the delivered
    messages: nothing, or one data message of the source [s]. *)
Inductive streamed (w : ws) (s f : json) (ob : list (ws * Msg))
  : list (ws * Msg) -> result progress -> Prop :=
| streamed_nothing : streamed w s f ob ob (Return Completed)
| streamed_data dp t r :
    r = Return Completed \/ r = Return (Asleep s f) ->
    streamed w s f ob ((w, Data s dp t) :: ob) r.

(** The coroutine is suspended in the streaming loop. *)
Definition is_sleeping (s : suspension) : bool :=
  match s with Sleeping _ _ => true | _ => false end.

(** [data_follows_ack], message by message: when a data message was sent to
    [w], a subscription of [w] to its source was in force. *)
Fixpoint acked (sent : list (ws * Msg)) : Prop :=
  match sent with
  | [] => True
  | (w, m) :: older =>
      match m with
      | Data s _ _ => exists f, subscription w older = Some (s, f)
      | _ => True
      end /\ acked older
  end.

(** A handler suspended in the streaming loop streams the subscription
    that is in force for its connection. *)
Definition streams_in_force (W : World) : Prop :=
  forall w cid s f,
    tasks W !! w = Some {| client_id := cid; at_point := Sleeping s f |} ->
    subscription w (outbox W) = Some (s, f).

(** The invariant of the event loop. *)
Definition consistent (W : World) : Prop :=
  acked (outbox W) /\ streams_in_force W.

(** The messages that neither are data nor start or end a subscription. *)
Definition neutral (m : Msg) : Prop :=
  match m with
  | Subscribed _ _ _ | Unsubscribed _ | Data _ _ _ => False
  | _ => True
  end.

(** The frame [{"type": "unsubscribe"}]. *)
Definition unsubscribe_frame : frame :=
  Json (JObj [("type", JStr "unsubscribe")]).

(** The frame [{"type": "subscribe"}], with neither source nor frequency. *)
Definition subscribe_frame : frame :=
  Json (JObj [("type", JStr "subscribe")]).

(** How the registry [self.data_generators] can change while a handler
    runs: not at all; by a generator built by [DataGenerator(source)] and
    stored under a hashable source that has none; or by one call of
    [generate_data_point] on the generator stored under a source, which
    rewrites it in place. *)
Inductive registry_step (random_sin : option (Q -> Q)) (E : Entropy)
  : list (json * DataGenerator) -> list (json * DataGenerator) -> Prop :=
| registry_same d : registry_step random_sin E d d
| registry_create d source n g n' d' :
    hashable source = true ->
    dict_lookup d source = None ->
    DataGenerator_init E source n = (g, n') ->
    registry_step random_sin E (d ++ [(source, g)]) d' ->
    registry_step random_sin E d d'
| registry_generate d source g n g' n' r d' :
    dict_lookup d source = Some g ->
    generate_data_point random_sin E g n = (g', n', r) ->
    registry_step random_sin E (dict_update d source g') d' ->
    registry_step random_sin E d d'.

(** No two keys of the dict are equal as Python compares them. *)
Fixpoint distinct_keys {V : Type} (d : list (json * V)) : Prop :=
  match d with
  | [] => True
  | (k, _) :: rest => dict_lookup rest k = None /\ distinct_keys rest
  end.

(** The generator stored under a key is the one built for that key: the key
    hashes, it is the [source_type] of the generator, and the generator has
    the field names [_init_base_values] gives for that source and the
    volatility set by the constructor. *)
Definition entry_ok (E : Entropy) (kg : json * DataGenerator) : Prop :=
  hashable (fst kg) = true /\
  source_type (snd kg) = fst kg /\
  map fst (base_values (snd kg))
  = map fst (fst (init_base_values E (fst kg) 0)) /\
  volatility (snd kg) = (2 # 100)%Q.

(** The trend of the stored generator is in its band and its stored values
    obey the bounds of their fields. *)
Definition entry_sound (kg : json * DataGenerator) : Prop :=
  in_band (trend (snd kg)) /\
  Forall (fun kv => within_bounds (fst kv) (snd kv)) (base_values (snd kg)).

(** The coroutine of a connection is suspended, not ended. *)
Definition live (s : suspension) : bool :=
  match s with
  | AwaitMessage | Sleeping _ _ => true
  | Returned | Failed _ => false
  end.

(** How the registry of sessions and the handler tasks go together: a
    session is registered only while its handler is suspended, and a handler
    that failed did so with the [KeyError] of [self.clients.remove]. *)
Definition lifecycle (W : World) : Prop :=
  forall w,
    match tasks W !! w with
    | None => w ∉ clients (server W)
    | Some t =>
        match at_point t with
        | AwaitMessage | Sleeping _ _ => True
        | Returned => w ∉ clients (server W)
        | Failed e => e = KeyError /\ w ∉ clients (server W)
        end
    end.

(** The same without the stats task, the only other place that removes
    sessions: a session is registered exactly while its handler is
    suspended, and no handler fails. *)
Definition in_step (W : World) : Prop :=
  forall w,
    match tasks W !! w with
    | None => w ∉ clients (server W)
    | Some t =>
        match at_point t with
        | AwaitMessage | Sleeping _ _ => w ∈ clients (server W)
        | Returned => w ∉ clients (server W)
        | Failed _ => False
        end
    end.

(** The message is a data message. *)
Definition is_data (m : Msg) : bool :=
  match m with Data _ _ _ => true | _ => false end.

(** The generator has fields to iterate over. *)
Definition has_fields (kg : json * DataGenerator) : Prop :=
  base_values (snd kg) <> [].

(** Nothing was streamed and nothing is about to be: no data message was
    delivered, no handler is suspended in the streaming loop, and every
    registered generator has fields. *)
Definition silent (W : World) : Prop :=
  Forall (fun wm => is_data (snd wm) = false) (outbox W) /\
  (forall w t, tasks W !! w = Some t -> is_sleeping (at_point t) = false) /\
  Forall has_fields (data_generators (server W)).

(** * Properties *)

(** ** Numbers *)

Lemma Qltb_spec (x y : Q) : reflect (x < y)%Q (Qltb x y).
Proof.
  unfold Qltb. destruct (Qle_bool y x) eqn:Hb; constructor.
  - apply Qle_bool_iff in Hb. lra.
  - assert (Hn : ~ (y <= x)%Q) by (rewrite <- Qle_bool_iff; congruence).
    lra.
Qed.









Lemma clamp_range (lo hi x : Q) :
  (lo <= hi -> lo <= Qmax lo (Qmin hi x) <= hi)%Q.
Proof.
  intros H. split.
  - apply Q.le_max_l.
  - apply Q.max_lub; [exact H | apply Q.le_min_l].
Qed.

(** ** The clamp of one field *)

Lemma clamp_price (base new : Q) :
  clamp "price" base new = if Qltb new 0 then (base * (1 # 10))%Q else new.
Proof. unfold clamp. simpl. destruct (Qltb new 0); reflexivity. Qed.

Lemma clamp_percent (key : string) (base new : Q) :
  key = "humidity" \/ key = "dominance" ->
  clamp key base new =
    if Qltb new 0 || Qltb 100 new then Qmax 0 (Qmin 100 new) else new.
Proof.
  intros [-> | ->]; unfold clamp; simpl;
    destruct (Qltb new 0 || Qltb 100 new); reflexivity.
Qed.

Lemma clamp_temperature (base new : Q) :
  clamp "temperature" base new =
    if Qltb new (-50) || Qltb 60 new then Qmax (-50) (Qmin 60 new) else new.
Proof.
  unfold clamp; simpl; destruct (Qltb new (-50) || Qltb 60 new); reflexivity.
Qed.


Lemma clamp_percent_range (key : string) (base new : Q) :
  key = "humidity" \/ key = "dominance" ->
  (0 <= clamp key base new <= 100)%Q.
Proof.
  intros Hk. rewrite (clamp_percent _ _ _ Hk).
  destruct (Qltb_spec new 0), (Qltb_spec 100 new); simpl;
    try (apply clamp_range; lra). lra.
Qed.

Lemma clamp_temperature_range (base new : Q) :
  (-50 <= clamp "temperature" base new <= 60)%Q.
Proof.
  rewrite clamp_temperature.
  destruct (Qltb_spec new (-50)), (Qltb_spec 60 new); simpl;
    try (apply clamp_range; lra). lra.
Qed.

Lemma clamp_price_nonneg (base new : Q) :
  (0 <= base -> 0 <= clamp "price" base new)%Q.
Proof.
  intros Hb. rewrite clamp_price. destruct (Qltb_spec new 0); lra.
Qed.


(** ** The loop over the fields *)

Lemma update_fields_none E t vol items done out n :
  items <> [] ->
  update_fields None E t vol items done out n =
    ((rev done ++ items)%list, n, Raise AttributeError).
Proof. destruct items as [| [key base] rest]; [congruence | reflexivity]. Qed.

Lemma update_fields_returns sin E t vol items :
  forall done out n,
    exists bv n' data,
      update_fields (Some sin) E t vol items done out n = (bv, n', Return data).
Proof.
  induction items as [| [key base] rest IH]; intros done out n; simpl.
  - eauto.
  - apply IH.
Qed.

Lemma update_fields_shown random_sin E t vol items :
  forall done out n bv n' data,
    update_fields random_sin E t vol items done out n = (bv, n', Return data) ->
    map shown_of done = out ->
    data = map shown_of bv.
Proof.
  induction items as [| [key base] rest IH]; intros done out n bv n' data Hrun Hm.
  - simpl in Hrun. injection Hrun as <- <- <-.
    rewrite <- Hm. symmetry. apply map_rev.
  - simpl in Hrun. destruct random_sin as [sin |]; [| discriminate].
    eapply IH; [exact Hrun |]. simpl. now rewrite Hm.
Qed.


Lemma steady_unit_bounded : unit_bounded steady.
Proof. intros n. simpl. lra. Qed.

Lemma generate_trend random_sin E g n :
  trend (fst (fst (generate_data_point random_sin E g n))) =
    Qmax (-(5 # 1000))
      (Qmin (5 # 1000) (trend g + uniform E (-(1 # 10000)) (1 # 10000) (n + 1))).
Proof.
  unfold generate_data_point.
  destruct (update_fields _ _ _ _ _ _ _ _) as [[bv n1] [data | e]]; reflexivity.
Qed.

Lemma generate_unfold random_sin E g n :
  let t := Qmax (-(5 # 1000))
             (Qmin (5 # 1000)
                (trend g + uniform E (-(1 # 10000)) (1 # 10000) (n + 1))) in
  let loop := update_fields random_sin E t (volatility g) (base_values g) [] []
               (n + 2) in
  base_values (fst (fst (generate_data_point random_sin E g n))) = fst (fst loop) /\
  match snd loop with
  | Return data =>
      exists dp, snd (generate_data_point random_sin E g n) = Return dp /\
                 dp_data dp = data
  | Raise e => snd (generate_data_point random_sin E g n) = Raise e
  end.
Proof.
  unfold generate_data_point.
  destruct (update_fields _ _ _ _ _ _ _ _) as [[bv n1] [data | e]]; simpl; eauto.
Qed.

Lemma uniform_range E a b n :
  unit_bounded E -> (a <= b)%Q -> (a <= uniform E a b n <= b)%Q.
Proof.
  intros HE Hab. unfold uniform. destruct (HE n) as [H0 H1]. nra.
Qed.

Lemma init_base_values_nonempty E src n : fst (init_base_values E src n) <> [].
Proof.
  unfold init_base_values.
  repeat (match goal with |- context [if ?b then _ else _] => destruct b end;
          [discriminate |]).
  discriminate.
Qed.




Lemma generate_none_base_values E g n :
  base_values (fst (fst (generate_data_point None E g n))) = base_values g.
Proof.
  destruct (generate_unfold None E g n) as [-> _].
  destruct (base_values g) as [| [key base] rest]; reflexivity.
Qed.

Lemma generate_many_none_base_values E calls :
  forall g n,
    base_values (fst (generate_many None E calls g n)) = base_values g.
Proof.
  induction calls as [| k IH]; intros g n; simpl; [reflexivity |].
  destruct (generate_data_point None E g n) as [[g' n'] r] eqn:Hgen.
  rewrite IH. change g' with (fst (fst (g', n', r))). rewrite <- Hgen.
  apply generate_none_base_values.
Qed.

Lemma init_generator_base_values E src n :
  base_values (fst (DataGenerator_init E src n)) = fst (init_base_values E src n).
Proof.
  unfold DataGenerator_init. destruct (init_base_values E src n); reflexivity.
Qed.

Lemma init_generator_trend E src n :
  unit_bounded E -> in_band (trend (fst (DataGenerator_init E src n))).
Proof.
  intros HE. unfold DataGenerator_init.
  destruct (init_base_values E src n) as [bv n1]. simpl. unfold in_band.
  pose proof (uniform_range E (-(1 # 1000)) (1 # 1000) n1 HE). lra.
Qed.

Lemma generate_trend_in_band random_sin E g n :
  in_band (trend (fst (fst (generate_data_point random_sin E g n)))).
Proof. rewrite generate_trend. apply clamp_range. lra. Qed.

(** C1 (the code departs from it): the claim says that a generation step
    computes [base * (1 + trend + seasonal + noise)] for every field and that
    [generate_data_point] never raises.  With the module [random] of CPython
    the lookup [random.sin] fails: on every generator the server can build,
    after any number of earlier calls, [generate_data_point] raises
    [AttributeError]. *)
Theorem generate_data_point_raises :
  forall (E : Entropy) (src : json) (n0 calls n1 n2 : nat),
    snd (generate_data_point cpython_random_sin E
           (fst (generate_many cpython_random_sin E calls
                   (fst (DataGenerator_init E src n0)) n1)) n2)
    = Raise AttributeError.
Proof.
  intros E src n0 calls n1 n2. unfold cpython_random_sin.
  set (g := fst (generate_many None E calls _ n1)).
  assert (Hne : base_values g <> []).
  { unfold g. rewrite generate_many_none_base_values, init_generator_base_values.
    apply init_base_values_nonempty. }
  pose proof (generate_unfold None E g n2) as [_ Hr]. simpl in Hr.
  rewrite update_fields_none in Hr by exact Hne. exact Hr.
Qed.






(** C4: the trend of a generator starts within [-0.005, 0.005]; every call
    of [generate_data_point] adds a uniform draw of [-0.0001, 0.0001] and
    clamps the sum to the band; so the trend lies in the band after any
    number of calls. *)
Theorem trend_stays_in_band :
  forall (random_sin : option (Q -> Q)) (E : Entropy),
    unit_bounded E ->
    (forall (src : json) (n : nat),
       in_band (trend (fst (DataGenerator_init E src n)))) /\
    (forall (g : DataGenerator) (n : nat),
       let draw := uniform E (-(1 # 10000)) (1 # 10000) (n + 1) in
       (-(1 # 10000) <= draw <= 1 # 10000)%Q /\
       trend (fst (fst (generate_data_point random_sin E g n))) =
         Qmax (-(5 # 1000)) (Qmin (5 # 1000) (trend g + draw)) /\
       in_band (trend (fst (fst (generate_data_point random_sin E g n))))) /\
    (forall (src : json) (n0 calls n1 : nat),
       in_band (trend (fst (generate_many random_sin E calls
                              (fst (DataGenerator_init E src n0)) n1)))).
Proof.
  intros random_sin E HE. split; [| split].
  - intros src n. apply init_generator_trend, HE.
  - intros g n. simpl. split; [| split].
    + apply uniform_range; [exact HE | lra].
    + apply generate_trend.
    + apply generate_trend_in_band.
  - intros src n0 calls n1.
    generalize (init_generator_trend E src n0 HE).
    generalize (fst (DataGenerator_init E src n0)) as g.
    revert n1. induction calls as [| k IH]; intros n1 g Hg; simpl; [exact Hg |].
    destruct (generate_data_point random_sin E g n1) as [[g' n'] r] eqn:Hgen.
    apply IH. change g' with (fst (fst (g', n', r))). rewrite <- Hgen.
    apply generate_trend_in_band.
Qed.

Lemma trend_stays_in_band_witness :
  unit_bounded steady /\
  in_band (trend (fst (generate_many cpython_random_sin steady 3
                         (fst (DataGenerator_init steady (JStr "stock") 0)) 5))).
Proof.
  split; [exact steady_unit_bounded |].
  apply (trend_stays_in_band cpython_random_sin steady steady_unit_bounded).
Defined.

(** ** The server *)

Ltac unfold_monad :=
  unfold handle_client_message, resume_streaming, guarded, dispatch,
    start_streaming, streaming_loop, generate, create_generator,
    try_except, bind, lift, get, modify, now, send, print, ret, raise in *.

Lemma sleep_seconds_raises f e :
  sleep_seconds f = Raise e -> e = TypeError \/ e = OverflowError.
Proof.
  destruct f; simpl; try (intros [= <-]; auto).
  destruct (Z.abs z <? float_overflow)%Z; intros [= <-]; auto.
Qed.

Lemma data_get_raises d k v e : data_get d k v = Raise e -> e = AttributeError.
Proof. destruct d; simpl; intros [= <-]; reflexivity. Qed.

Lemma dict_contains_raises {V} (d : list (json * V)) k e :
  dict_contains d k = Raise e -> e = TypeError.
Proof. unfold dict_contains. destruct (hashable k); intros [= <-]; reflexivity. Qed.

Lemma json_loads_raises m e : json_loads m = Raise e -> e = JSONDecodeError.
Proof. destruct m; intros [= <-]; reflexivity. Qed.

Lemma update_fields_raises random_sin E t vol items :
  forall done out n bv n' e,
    update_fields random_sin E t vol items done out n = (bv, n', Raise e) ->
    e = AttributeError.
Proof.
  induction items as [| [key base] rest IH]; intros done out n bv n' e; simpl.
  - intros [=].
  - destruct random_sin; [apply IH | intros [= _ _ <-]; reflexivity].
Qed.

Lemma generate_only_raises_AttributeError random_sin E g n g' n' e :
  generate_data_point random_sin E g n = (g', n', Raise e) -> e = AttributeError.
Proof.
  unfold generate_data_point.
  destruct (update_fields _ _ _ _ _ _ _ _) as [[bv n1] [data | e']] eqn:Hrun;
    intros [= _ _ <-].
  eapply update_fields_raises, Hrun.
Qed.

Ltac absurd_raise :=
  match goal with
  | H : sleep_seconds _ = Raise _ |- _ =>
      apply sleep_seconds_raises in H; destruct H; congruence
  | H : data_get _ _ _ = Raise _ |- _ =>
      apply data_get_raises in H; congruence
  | H : dict_contains _ _ = Raise _ |- _ =>
      apply dict_contains_raises in H; congruence
  | H : json_loads _ = Raise _ |- _ =>
      apply json_loads_raises in H; congruence
  | H : generate_data_point _ _ _ _ = (_, _, Raise _) |- _ =>
      apply generate_only_raises_AttributeError in H; congruence
  | H1 : ?w ∈ gone ?W, H2 : ?w ∉ gone ?W |- _ => contradiction
  end.

Lemma handle_client_message_handled random_sin E w m W W' r :
  handle_client_message random_sin E w m W = (W', r) ->
  tasks W' = tasks W /\ gone W' = gone W /\ inbox W' = inbox W /\
  clients (server W') = clients (server W) /\
  handled w (outbox W) (outbox W') r.
Proof.
  unfold_monad. intros H.
  repeat (case_match; simplify_eq/=); try absurd_raise;
  repeat split; eauto using handled.
  all: try (by constructor; auto).
  all: try (by eapply handled_stream; auto).
  all: try (by eapply handled_reply).
Qed.

Lemma resume_streaming_streamed random_sin E w s f W W' r :
  resume_streaming random_sin E w s f W = (W', r) ->
  tasks W' = tasks W /\ gone W' = gone W /\ inbox W' = inbox W /\
  clients (server W') = clients (server W) /\
  streamed w s f (outbox W) (outbox W') r.
Proof.
  unfold_monad. intros H.
  repeat (case_match; simplify_eq/=); try absurd_raise;
  repeat split; eauto using streamed.
Qed.

Lemma register_client_exit_frame w cid r0 W W' r :
  register_client_exit w cid r0 W = (W', r) ->
  tasks W' = tasks W /\ gone W' = gone W /\ inbox W' = inbox W /\
  outbox W' = outbox W /\ data_generators (server W') = data_generators (server W).
Proof.
  unfold register_client_exit. unfold_monad. intros H.
  repeat (case_match; simplify_eq/=); auto.
Qed.

Lemma finish_frame w cid r0 W :
  exists s,
    tasks (finish w cid r0 W) = <[w := {| client_id := cid; at_point := s |}]> (tasks W) /\
    is_sleeping s = false /\
    outbox (finish w cid r0 W) = outbox W /\
    gone (finish w cid r0 W) = gone W /\
    inbox (finish w cid r0 W) = inbox W.
Proof.
  unfold finish. destruct (register_client_exit w cid r0 W) as [W' r] eqn:Hx.
  apply register_client_exit_frame in Hx as (Ht & Hg & Hi & Ho & _).
  exists (ended r). simpl. rewrite Ht, Hg, Hi, Ho.
  repeat split. destruct r; reflexivity.
Qed.

Lemma sweep_frame cs stats : forall d W W' r,
  sweep cs stats d W = (W', r) ->
  tasks W' = tasks W /\ gone W' = gone W /\ inbox W' = inbox W /\
  server W' = server W /\ cursor W' = cursor W /\ printed W' = printed W /\
  exists d', r = Return d' /\
  outbox W' =
    (map (fun c => (c, stats)) (rev (filter (fun c => c ∉ gone W) cs))
       ++ outbox W)%list /\
  d' = list_to_set (filter (fun c => c ∈ gone W) cs) ∪ d.
Proof.
  induction cs as [| c rest IH]; intros d W W' r; simpl.
  - unfold ret. intros [= <- <-]. repeat split. eexists. repeat split.
    set_solver.
  - unfold bind at 1. unfold try_except, bind, send, ret.
    destruct (decide (c ∈ gone W)) as [Hin | Hout]; simpl.
    + intros Hs. apply IH in Hs as (Ht & Hg & Hi & Hs & Hc & Hp & d' & -> & Ho & ->).
      repeat split; auto. eexists. split; [reflexivity |].
      rewrite (filter_cons_True (fun c => c ∈ gone W)) by assumption.
      rewrite (filter_cons_False (fun c => c ∉ gone W)) by (intros ?; contradiction).
      split; [exact Ho |]. simpl. set_solver.
    + intros Hs. apply IH in Hs as (Ht & Hg & Hi & Hs & Hc & Hp & d' & -> & Ho & ->).
      simpl in *. repeat split; auto. eexists. split; [reflexivity |].
      rewrite (filter_cons_True (fun c => c ∉ gone W)) by assumption.
      rewrite (filter_cons_False (fun c => c ∈ gone W)) by assumption.
      split; [| reflexivity]. rewrite Ho. simpl.
      rewrite map_app, <- app_assoc. reflexivity.
Qed.

Lemma acked_data_follows_ack sent : acked sent -> data_follows_ack sent.
Proof.
  intros Hs newer. revert sent Hs.
  induction newer as [| [w' m'] newer IH]; intros sent Hs older w s dp t ->.
  - simpl in Hs. apply Hs.
  - simpl in Hs. eapply IH; [apply Hs | reflexivity].
Qed.

Lemma subscription_other w w' m ob :
  w' <> w -> subscription w ((w', m) :: ob) = subscription w ob.
Proof. intros Hne. simpl. apply Nat.eqb_neq in Hne. now rewrite Hne. Qed.

Lemma subscription_neutral w w' m ob :
  neutral m \/ (exists s dp t, m = Data s dp t) ->
  subscription w ((w', m) :: ob) = subscription w ob.
Proof.
  intros Hm. simpl. destruct (Nat.eqb w' w); [| reflexivity].
  destruct Hm as [Hm | (s & dp & t & ->)]; [| reflexivity].
  destruct m; simpl in Hm; try contradiction; reflexivity.
Qed.

Lemma subscription_same w m ob :
  subscription w ((w, m) :: ob) =
    match m with
    | Subscribed s f _ => Some (s, f)
    | Unsubscribed _ => None
    | _ => subscription w ob
    end.
Proof. simpl. now rewrite Nat.eqb_refl. Qed.

Lemma acked_neutral w m ob : neutral m -> acked ob -> acked ((w, m) :: ob).
Proof. intros Hm Hob. simpl. split; [| exact Hob]. destruct m; auto; contradiction. Qed.

Lemma stats_neutral w stats cs ob :
  neutral stats ->
  subscription w (map (fun c : ws => (c, stats)) cs ++ ob)%list = subscription w ob /\
  (acked ob -> acked (map (fun c : ws => (c, stats)) cs ++ ob)%list).
Proof.
  intros Hs. induction cs as [| c cs [IH1 IH2]]; simpl app; [auto |].
  split.
  - rewrite <- IH1. apply subscription_neutral. auto.
  - intros Hob. apply acked_neutral; auto.
Qed.

Lemma park_streams w cid s ob W :
  streams_in_force W ->
  (forall w', w' <> w -> subscription w' ob = subscription w' (outbox W)) ->
  (forall src f, s = Sleeping src f -> subscription w ob = Some (src, f)) ->
  forall W', tasks W' = <[w := {| client_id := cid; at_point := s |}]> (tasks W) ->
  outbox W' = ob -> streams_in_force W'.
Proof.
  intros HW Hother Hs W' Ht Ho w' cid' src f. rewrite Ht, Ho.
  destruct (decide (w = w')) as [<- | Hne].
  - rewrite lookup_insert_eq. intros [= <- ->]. apply Hs. reflexivity.
  - rewrite lookup_insert_ne by exact Hne. intros Hl.
    rewrite Hother by congruence. eapply HW, Hl.
Qed.

Lemma register_client_frame E w W :
  exists cid s,
    tasks (register_client E w W)
      = <[w := {| client_id := cid; at_point := s |}]> (tasks W) /\
    is_sleeping s = false /\
    gone (register_client E w W) = gone W /\
    inbox (register_client E w W) = inbox W /\
    (outbox (register_client E w W) = outbox W \/
     exists msg, neutral msg /\
       outbox (register_client E w W) = (w, msg) :: outbox W).
Proof.
  unfold register_client. unfold_monad. simpl.
  destruct (decide (w ∈ gone W)) as [Hin | Hout]; simpl.
  - match goal with |- context [finish w ?c ?r ?W0] =>
      destruct (finish_frame w c r W0) as (s & Ht & Hs & Ho & Hg & Hi);
      exists c, s end.
    rewrite Ht, Ho, Hg, Hi. simpl.
    repeat (split; [first [reflexivity | assumption] |]). left. reflexivity.
  - eexists _, AwaitMessage. simpl. repeat split. right.
    eexists. split; [| reflexivity]. exact I.
Qed.

Lemma broadcast_frame E W :
  tasks (fst (broadcast_server_stats E W)) = tasks W /\
  gone (fst (broadcast_server_stats E W)) = gone W /\
  inbox (fst (broadcast_server_stats E W)) = inbox W /\
  exists stats cs,
    neutral stats /\
    outbox (fst (broadcast_server_stats E W))
      = (map (fun c : ws => (c, stats)) cs ++ outbox W)%list.
Proof.
  destruct (broadcast_server_stats E W) as [W' r] eqn:Hb. simpl.
  unfold broadcast_server_stats, get, bind, now, modify, ret in Hb.
  destruct (running (server W)).
  - destruct (bool_decide (clients (server W) ≠ ∅)).
    + match type of Hb with context [sweep ?cs ?st ?d ?W0] =>
        destruct (sweep cs st d W0) as [W1 r1] eqn:Hs;
        apply sweep_frame in Hs as (Ht & Hg & Hi & _ & _ & _ & d' & -> & Ho & _)
      end.
      injection Hb as <- <-. simpl in *. rewrite Ht, Hg, Hi, Ho.
      refine (conj eq_refl (conj eq_refl (conj eq_refl _))).
      eexists _, _. split; [| reflexivity]. exact I.
    + injection Hb as <- <-.
      refine (conj eq_refl (conj eq_refl (conj eq_refl _))).
      exists (Pong 0), []. split; [exact I | reflexivity].
  - injection Hb as <- <-.
    refine (conj eq_refl (conj eq_refl (conj eq_refl _))).
    exists (Pong 0), []. split; [exact I | reflexivity].
Qed.

Lemma consistent_initial : consistent initial_world.
Proof.
  split; [exact I |]. intros w cid s f. simpl. rewrite lookup_empty. discriminate.
Qed.

Lemma consistent_finish w cid r W :
  consistent W -> consistent (finish w cid r W).
Proof.
  intros [Ha Hs]. destruct (finish_frame w cid r W) as (s & Ht & Hsl & Ho & _).
  split; [now rewrite Ho |].
  apply (park_streams w cid s (outbox W) W Hs); [reflexivity | | exact Ht | exact Ho].
  intros src f ->. discriminate.
Qed.

Lemma consistent_after_handler random_sin E w cid m W0 W :
  consistent W -> tasks W0 = tasks W -> outbox W0 = outbox W ->
  consistent (after_handler w cid (handle_client_message random_sin E w m W0)).
Proof.
  intros [Ha Hs] Ht0 Ho0.
  destruct (handle_client_message random_sin E w m W0) as [W' r] eqn:Hh.
  apply handle_client_message_handled in Hh as (Ht & _ & _ & _ & Hh).
  rewrite Ht0 in Ht. rewrite Ho0 in Hh.
  assert (HW' : forall ob, outbox W' = ob -> acked ob ->
            (forall w', w' <> w -> subscription w' ob = subscription w' (outbox W)) ->
            forall s, (forall src f, s = Sleeping src f ->
                         subscription w ob = Some (src, f)) ->
            consistent (park w cid s W')).
  { intros ob Hob Hack Hoth s Hsl. split; [simpl; now rewrite Hob |].
    eapply park_streams; [exact Hs | exact Hoth | exact Hsl | | ].
    - simpl. now rewrite Ht.
    - simpl. exact Hob. }
  assert (HF : forall ob e, outbox W' = ob -> acked ob ->
            (forall w', w' <> w -> subscription w' ob = subscription w' (outbox W)) ->
            consistent (finish w cid (Raise e) W')).
  { intros ob e Hob Hack Hoth.
    destruct (finish_frame w cid (Raise e) W') as (s & Ht' & Hsl & Ho' & _).
    split; [rewrite Ho', Hob; exact Hack |].
    apply (park_streams w cid s ob W Hs Hoth).
    - intros src f ->. discriminate.
    - now rewrite Ht', Ht.
    - now rewrite Ho'. }
  inversion Hh as [r0 Hr Hob | msg Hm Hob | s f t Hob | s f t dp t' r0 Hr Hob];
    subst; simpl.
  - destruct Hr as [-> | ->]; simpl.
    + apply (HW' (outbox W)); auto. intros ? ? ?; discriminate.
    + apply (HF (outbox W)); auto.
  - eapply HW'; [symmetry; exact Hob | | | intros ? ? ?; discriminate].
    + simpl. split; [| exact Ha]. destruct msg; auto; contradiction.
    + intros w' Hne. apply subscription_other. auto.
  - eapply HW'; [symmetry; exact Hob | | | intros ? ? ?; discriminate].
    + simpl. auto.
    + intros w' Hne. apply subscription_other. auto.
  - assert (Hack : acked ((w, Data s dp t') :: (w, Subscribed s f t) :: outbox W)).
    { simpl. rewrite Nat.eqb_refl. eauto. }
    assert (Hoth : forall w', w' <> w ->
              subscription w' ((w, Data s dp t') :: (w, Subscribed s f t) :: outbox W)
              = subscription w' (outbox W)).
    { intros w' Hne. rewrite !subscription_other by auto. reflexivity. }
    destruct Hr as [-> | ->]; simpl.
    + apply (HW' _ (eq_sym Hob) Hack Hoth). intros ? ? ?; discriminate.
    + apply (HW' _ (eq_sym Hob) Hack Hoth). intros src f' [= <- <-].
      simpl. rewrite Nat.eqb_refl. reflexivity.
Qed.

Lemma consistent_after_streaming random_sin E w cid s f W :
  consistent W ->
  tasks W !! w = Some {| client_id := cid; at_point := Sleeping s f |} ->
  consistent (after_handler w cid (resume_streaming random_sin E w s f W)).
Proof.
  intros [Ha Hs] Hw.
  destruct (resume_streaming random_sin E w s f W) as [W' r] eqn:Hh.
  apply resume_streaming_streamed in Hh as (Ht & _ & _ & _ & Hh).
  pose proof (Hs w cid s f Hw) as Hsub.
  inversion Hh as [Hob Hr | dp t r0 Hr Hob]; subst; simpl.
  - split; [simpl; rewrite <- Hob; exact Ha |].
    apply (park_streams w cid AwaitMessage (outbox W) W Hs);
      [reflexivity | intros ? ? ?; discriminate | simpl; now rewrite Ht | auto].
  - assert (Hack : acked ((w, Data s dp t) :: outbox W)) by (simpl; eauto).
    assert (Hoth : forall w', w' <> w ->
              subscription w' ((w, Data s dp t) :: outbox W)
              = subscription w' (outbox W)).
    { intros w' Hne. apply subscription_other. auto. }
    destruct Hr as [-> | ->]; simpl.
    + split; [simpl; rewrite <- Hob; exact Hack |].
      apply (park_streams w cid AwaitMessage _ W Hs Hoth);
        [intros ? ? ?; discriminate | simpl; now rewrite Ht | auto].
    + split; [simpl; rewrite <- Hob; exact Hack |].
      apply (park_streams w cid (Sleeping s f) _ W Hs Hoth);
        [| simpl; now rewrite Ht | auto].
      intros src f' [= <- <-]. rewrite subscription_same. exact Hsub.
Qed.

Lemma step_consistent random_sin E W ev :
  consistent W -> consistent (step random_sin E W ev).
Proof.
  intros HW. pose proof HW as [Ha Hs]. destruct ev as [w | w m | w | w |]; simpl.
  - destruct (tasks W !! w) eqn:Hw; [exact HW |].
    destruct (register_client_frame E w W) as (cid & s & Ht & Hsl & _ & _ & Ho).
    destruct Ho as [Ho | (msg & Hm & Ho)].
    + split; [now rewrite Ho |].
      apply (park_streams w cid s (outbox W) W Hs); auto.
      intros src f ->. discriminate.
    + split; [rewrite Ho; now apply acked_neutral |].
      apply (park_streams w cid s ((w, msg) :: outbox W) W Hs); auto.
      * intros w' _. apply subscription_neutral. auto.
      * intros src f ->. discriminate.
  - destruct (decide (w ∈ gone W)); exact HW.
  - exact HW.
  - unfold resume. destruct (tasks W !! w) as [[cid [| s f | |]] |] eqn:Hw;
      try exact HW.
    + destruct (inbox W !! w) as [[| m rest] |].
      * destruct (decide (w ∈ gone W)); [apply consistent_finish |]; exact HW.
      * apply (consistent_after_handler random_sin E w cid m _ W HW); reflexivity.
      * destruct (decide (w ∈ gone W)); [apply consistent_finish |]; exact HW.
    + apply consistent_after_streaming; auto.
  - destruct (broadcast_frame E W) as (Ht & _ & _ & stats & cs & Hn & Ho).
    split.
    + rewrite Ho. apply stats_neutral; auto. exact 0%nat.
    + intros w cid s f. rewrite Ht, Ho. intros Hw.
      destruct (stats_neutral w stats cs (outbox W) Hn) as [-> _].
      eapply Hs, Hw.
Qed.

Lemma run_events_consistent random_sin E evs :
  forall W, consistent W -> consistent (run_events random_sin E evs W).
Proof.
  induction evs as [| ev evs IH]; intros W HW; simpl; [exact HW |].
  apply IH, step_consistent, HW.
Qed.



(** With a callable [random.sin] the streaming loop keeps running inside the
    handler of the [subscribe] message: an [unsubscribe] frame that arrives
    meanwhile stays unread, and the next turn of the loop sends data. *)
Example unsubscribe_waits_for_the_loop :
  let W := run_events (Some (fun _ => 0%Q)) steady
             [Connect 1; Receive 1 subscribe_frame; Resume 1;
              Receive 1 unsubscribe_frame; Resume 1] initial_world in
  inbox W !! 1 = Some [unsubscribe_frame] /\
  at_point <$> tasks W !! 1 = Some (Sleeping (JStr "stock") (JInt 500)) /\
  exists dp t older, outbox W = (1, Data (JStr "stock") dp t) :: older.
Proof.
  repeat split; try (vm_compute; reflexivity).
  eexists _, _, _. vm_compute. reflexivity.
Qed.





(** C7 (the code departs from it): the claim says that removing a session
    that is not in the registry is a no-op.  When the stats sweep has
    already removed a closed session, the [finally] clause of its handler
    calls [self.clients.remove] on the absent session and the handler ends
    with [KeyError]; without the sweep in between it returns normally. *)
Theorem second_removal_raises_KeyError :
  forall (random_sin : option (Q -> Q)) (E : Entropy),
    let W := run_events random_sin E [Connect 1; Drop 1; Tick] initial_world in
    (1 ∉ clients (server W)) /\
    at_point <$> tasks W !! 1 = Some AwaitMessage /\
    at_point <$> tasks (step random_sin E W (Resume 1)) !! 1
      = Some (Failed KeyError) /\
    at_point <$>
      tasks (run_events random_sin E [Connect 1; Drop 1; Resume 1]
               initial_world) !! 1
      = Some Returned.
Proof.
  intros random_sin E. split; [vm_compute; discriminate |].
  repeat split; vm_compute; reflexivity.
Qed.

Lemma py_eq_refl k : hashable k = true -> py_eq k k = true.
Proof.
  destruct k; simpl; try discriminate; intros _; try reflexivity.
  - destruct b; reflexivity.
  - apply Qeq_bool_iff. reflexivity.
  - apply Qeq_bool_iff. reflexivity.
  - apply String.eqb_refl.
Qed.

Lemma dict_lookup_appended {V} (d : list (json * V)) k v :
  hashable k = true -> dict_lookup (d ++ [(k, v)]) k <> None.
Proof.
  intros Hk. induction d as [| [k' v'] d IH]; simpl.
  - rewrite py_eq_refl by exact Hk. discriminate.
  - destruct (py_eq k' k); [discriminate | exact IH].
Qed.

(** C8: a [subscribe] message without [source] subscribes to ["stock"],
    one without [frequency] uses 500; on an open connection the handler
    sends the [subscribed] acknowledgment with these effective values first,
    and at most the first data message of that source after it; and in
    every run of the server each data message follows an acknowledgment of
    a subscription to its source that is still in force. *)
Theorem subscribe_defaults_and_ack_first :
  forall (random_sin : option (Q -> Q)) (E : Entropy),
    (forall (w : ws) (fields : list (string * json)) (W W' : World)
            (r : result progress),
       obj_get fields "type" = Some (JStr "subscribe") ->
       let source := default (JStr "stock") (obj_get fields "source") in
       let frequency := default (JInt 500) (obj_get fields "frequency") in
       hashable source = true ->
       w ∉ gone W ->
       handle_client_message random_sin E w (Json (JObj fields)) W = (W', r) ->
       exists t,
         outbox W' = (w, Subscribed source frequency t) :: outbox W \/
         exists dp t',
           outbox W'
           = (w, Data source dp t') :: (w, Subscribed source frequency t)
               :: outbox W) /\
    (forall evs : list event,
       data_follows_ack (outbox (run_events random_sin E evs initial_world))).
Proof.
  intros random_sin E. split.
  - intros w fields W W' r Ht source frequency Hh Hg.
    subst source frequency. unfold_monad. unfold dict_contains. simpl.
    rewrite Ht. simpl.
    destruct (obj_get fields "source") as [src |];
      destruct (obj_get fields "frequency") as [freq |]; simpl in *;
      rewrite ?Hh; intros H;
      repeat (case_match; simplify_eq/=); try absurd_raise; eauto.
    all: try (eexists; left; reflexivity).
    all: try (eexists; right; eexists _, _; reflexivity).
    all: exfalso; eapply dict_lookup_appended; [| eassumption];
      first [assumption | reflexivity].
  - intros evs. apply acked_data_follows_ack.
    apply (run_events_consistent random_sin E evs _ consistent_initial).
Qed.

Lemma subscribe_defaults_and_ack_first_witness :
  let W := run_events cpython_random_sin steady [Connect 1] initial_world in
  let W' := fst (handle_client_message cpython_random_sin steady 1
                   subscribe_frame W) in
  exists t,
    outbox W' = (1, Subscribed (JStr "stock") (JInt 500) t) :: outbox W \/
    exists dp t',
      outbox W'
      = (1, Data (JStr "stock") dp t')
          :: (1, Subscribed (JStr "stock") (JInt 500) t) :: outbox W.
Proof.
  intros W W'.
  refine (proj1 (subscribe_defaults_and_ack_first cpython_random_sin steady)
            1 [("type", JStr "subscribe")] W W'
            (snd (handle_client_message cpython_random_sin steady 1
                    subscribe_frame W)) _ _ _ _).
  - reflexivity.
  - reflexivity.
  - vm_compute. discriminate.
  - vm_compute. reflexivity.
Defined.




(** C10: the identifier of a session is ["client_"] followed by the size of
    the registry right after the session is added; after one of two
    sessions disconnects, the next session gets the identifier of the one
    still connected, so two live sessions carry the same identifier. *)
Theorem client_id_is_registry_size :
  forall (random_sin : option (Q -> Q)) (E : Entropy),
    (forall (w : ws) (W : World),
       tasks W !! w = None ->
       w ∉ gone W ->
       let W' := step random_sin E W (Connect w) in
       let cid := "client_" ++ decimal (size (clients (server W'))) in
       clients (server W') = {[w]} ∪ clients (server W) /\
       tasks W' !! w = Some {| client_id := cid; at_point := AwaitMessage |} /\
       outbox W'
       = (w, Welcome cid (clock E (cursor W))
               ["stock"; "sensor"; "network"; "crypto"; "weather"] "1.0.0"
               (clock E (cursor W + 1)) (size (clients (server W'))))
           :: outbox W) /\
    (let W := run_events random_sin E
                [Connect 1; Connect 2; Drop 1; Resume 1; Connect 3]
                initial_world in
     clients (server W) = {[2; 3]} /\
     gone W = {[1]} /\
     tasks W !! 2 = Some {| client_id := "client_2"; at_point := AwaitMessage |} /\
     tasks W !! 3 = Some {| client_id := "client_2"; at_point := AwaitMessage |}).
Proof.
  intros random_sin E. split.
  - intros w W Hw Hg W' cid. subst W' cid. simpl. rewrite Hw.
    unfold register_client. unfold_monad. simpl.
    destruct (decide (w ∈ gone W)); [contradiction |]. simpl.
    rewrite lookup_insert_eq. auto.
  - repeat split; vm_compute; reflexivity.
Qed.

Lemma client_id_is_registry_size_witness :
  let W := run_events cpython_random_sin steady [Connect 1] initial_world in
  tasks (step cpython_random_sin steady W (Connect 2)) !! 2
  = Some {| client_id := "client_2"; at_point := AwaitMessage |}.
Proof.
  intros W.
  refine (proj1 (proj2 (proj1
            (client_id_is_registry_size cpython_random_sin steady) 2 W _ _))).
  - vm_compute. reflexivity.
  - vm_compute. discriminate.
Defined.

(** ** More on the generator *)

Lemma update_fields_keys random_sin E t vol items :
  forall done out n bv n' r,
    update_fields random_sin E t vol items done out n = (bv, n', r) ->
    map fst out = map fst done ->
    map fst bv = (rev (map fst done) ++ map fst items)%list /\
    forall data, r = Return data -> map fst data = map fst bv.
Proof.
  induction items as [| [key base] rest IH]; intros done out n bv n' r Hrun Ho.
  - simpl in Hrun. injection Hrun as <- <- <-. rewrite app_nil_r, map_rev.
    split; [reflexivity |]. intros data [= <-]. now rewrite !map_rev, Ho.
  - simpl in Hrun. destruct random_sin as [sin |].
    + apply IH in Hrun as [Hbv Hdata]; [| simpl; now rewrite Ho].
      split; [| exact Hdata]. rewrite Hbv. simpl. now rewrite <- app_assoc.
    + injection Hrun as <- <- <-. split; [| discriminate].
      now rewrite map_app, map_rev.
Qed.

Lemma round_half_even_near (x : Q) :
  (Qabs (inject_Z (round_half_even x) - x) <= 1 # 2)%Q.
Proof.
  pose proof (Qfloor_le x) as Hlo. pose proof (Qlt_floor x) as Hhi.
  rewrite inject_Z_plus in Hhi. change (inject_Z 1) with 1%Q in Hhi.
  unfold round_half_even.
  destruct (x - inject_Z (Qfloor x) ?= 1 # 2)%Q eqn:Hc.
  - apply Qeq_alt in Hc.
    destruct (Z.even (Qfloor x)); apply Qabs_Qle_condition;
      rewrite ?inject_Z_plus; change (inject_Z 1) with 1%Q; lra.
  - apply Qlt_alt in Hc. apply Qabs_Qle_condition. lra.
  - apply Qgt_alt in Hc. apply Qabs_Qle_condition.
    rewrite inject_Z_plus. change (inject_Z 1) with 1%Q. lra.
Qed.

Lemma round2_near (x : Q) : (Qabs (round2 x - x) <= 1 # 200)%Q.
Proof.
  pose proof (round_half_even_near (x * 100)) as H.
  apply Qabs_Qle_condition in H. apply Qabs_Qle_condition.
  unfold round2. set (r := inject_Z (round_half_even (x * 100))) in *.
  unfold Qdiv. change (/ 100)%Q with (1 # 100)%Q. lra.
Qed.

Lemma generate_shape random_sin E g n :
  let g' := fst (fst (generate_data_point random_sin E g n)) in
  source_type g' = source_type g /\
  volatility g' = volatility g /\
  map fst (base_values g') = map fst (base_values g).
Proof.
  unfold generate_data_point.
  destruct (update_fields _ _ _ _ _ _ _ _) as [[bv n1] r] eqn:Hrun.
  apply update_fields_keys in Hrun as [Hbv _]; [| reflexivity].
  simpl in Hbv. destruct r as [data | e]; simpl; auto.
Qed.

(** X1: a call of [generate_data_point] leaves the source, the volatility
    and the field names of the generator as they were, whether it returns or
    raises; a data point it returns carries the source of the generator and
    one value for each of its fields, in the order of the fields. *)
Theorem data_point_has_generator_fields :
  forall (random_sin : option (Q -> Q)) (E : Entropy) (g : DataGenerator)
         (n : nat),
    let g' := fst (fst (generate_data_point random_sin E g n)) in
    source_type g' = source_type g /\
    volatility g' = volatility g /\
    map fst (base_values g') = map fst (base_values g) /\
    forall dp,
      snd (generate_data_point random_sin E g n) = Return dp ->
      dp_source dp = source_type g /\
      map fst (dp_data dp) = map fst (base_values g).
Proof.
  intros random_sin E g n. unfold generate_data_point.
  destruct (update_fields _ _ _ _ _ _ _ _) as [[bv n1] r] eqn:Hrun.
  apply update_fields_keys in Hrun as [Hbv Hdata]; [| reflexivity].
  simpl in Hbv. destruct r as [data | e]; simpl.
  - do 3 (split; [first [reflexivity | exact Hbv] |]).
    intros dp [= <-]. simpl.
    split; [reflexivity |]. rewrite (Hdata data eq_refl). exact Hbv.
  - do 3 (split; [first [reflexivity | exact Hbv] |]). discriminate.
Qed.

Lemma data_point_has_generator_fields_witness :
  exists dp,
    snd (generate_data_point (Some (fun _ => 0%Q)) steady sample_generator 0)
    = Return dp /\
    dp_source dp = source_type sample_generator /\
    map fst (dp_data dp) = map fst (base_values sample_generator).
Proof.
  eexists. split; [vm_compute; reflexivity |].
  apply (proj2 (proj2 (proj2
           (data_point_has_generator_fields (Some (fun _ => 0%Q)) steady
              sample_generator 0%nat)))).
  vm_compute. reflexivity.
Defined.

Lemma update_field_stored_bounds (key : string) (base t s noise : Q) :
  (key = "price" -> (0 <= base)%Q) ->
  within_bounds key (snd (update_field key base t s noise)).
Proof.
  intros Hp. unfold update_field, within_bounds. simpl.
  split; [| split].
  - intros ->. apply clamp_temperature_range.
  - intros Hk. apply clamp_percent_range, Hk.
  - intros Hk. subst key. apply clamp_price_nonneg. auto.
Qed.

Lemma update_fields_stored_bounds random_sin E t vol items :
  forall done out n bv n' r,
    update_fields random_sin E t vol items done out n = (bv, n', r) ->
    Forall (fun kv => within_bounds (fst kv) (snd kv)) items ->
    Forall (fun kv => within_bounds (fst kv) (snd kv)) done ->
    Forall (fun kv => within_bounds (fst kv) (snd kv)) bv.
Proof.
  induction items as [| [key base] rest IH]; intros done out n bv n' r Hrun Hi Hd.
  - simpl in Hrun. injection Hrun as <- <- <-. apply Forall_rev, Hd.
  - simpl in Hrun. destruct random_sin as [sin |].
    + pose proof (Forall_inv Hi) as Hk. pose proof (Forall_inv_tail Hi) as Hrest.
      eapply IH; [exact Hrun | exact Hrest |].
      constructor; [| exact Hd]. simpl.
      apply (update_field_stored_bounds key base t
               ((1 # 10) * sin (clock E n / 3600))%Q (gauss E 0 vol (n + 1))).
      apply Hk.
    + injection Hrun as <- <- <-.
      apply Forall_app. split; [apply Forall_rev, Hd | exact Hi].
Qed.

Lemma init_within_bounds E src n :
  unit_bounded E ->
  Forall (fun kv => within_bounds (fst kv) (snd kv))
    (fst (init_base_values E src n)).
Proof.
  intros HE. unfold init_base_values.
  pose proof (fun a b m => uniform_range E a b m HE) as Hu.
  repeat (match goal with |- context [if ?b then _ else _] => destruct b end);
    simpl;
    repeat match goal with
      | |- Forall _ (_ :: _) => constructor
      | |- Forall _ [] => constructor
      end;
    unfold within_bounds; simpl; (split; [| split]); intros Hk;
    try discriminate Hk; try (destruct Hk; discriminate);
    repeat match goal with
      | |- context [uniform E ?a ?b ?m] =>
          let H := fresh in
          assert (H : (a <= b)%Q) by lra;
          pose proof (Hu a b m H); clear H;
          generalize dependent (uniform E a b m); intros
      end; lra.
Qed.

Lemma generate_within_bounds random_sin E g n :
  Forall (fun kv => within_bounds (fst kv) (snd kv)) (base_values g) ->
  Forall (fun kv => within_bounds (fst kv) (snd kv))
    (base_values (fst (fst (generate_data_point random_sin E g n)))).
Proof.
  intros Hg. destruct (generate_unfold random_sin E g n) as [-> _].
  destruct (update_fields _ _ _ _ _ _ _ _) as [[bv n1] r] eqn:Hrun. simpl.
  eapply update_fields_stored_bounds; eauto.
Qed.

(** X2: with draws of [random.random] in the unit interval, the values a
    generator stores as the bases of its next call obey the bounds of their
    fields (temperature in [-50, 60], humidity and dominance in [0, 100],
    price not negative), from its construction on and after any number of
    calls of [generate_data_point], returning or raising. *)
Theorem stored_values_stay_within_bounds :
  forall (random_sin : option (Q -> Q)) (E : Entropy) (src : json)
         (n0 calls n1 : nat),
    unit_bounded E ->
    Forall (fun kv => within_bounds (fst kv) (snd kv))
      (base_values (fst (generate_many random_sin E calls
                           (fst (DataGenerator_init E src n0)) n1))).
Proof.
  intros random_sin E src n0 calls n1 HE.
  assert (H0 : Forall (fun kv => within_bounds (fst kv) (snd kv))
                 (base_values (fst (DataGenerator_init E src n0)))).
  { rewrite init_generator_base_values. apply init_within_bounds, HE. }
  revert H0. generalize (fst (DataGenerator_init E src n0)) as g. revert n1.
  induction calls as [| k IH]; intros n1 g Hg; simpl; [exact Hg |].
  destruct (generate_data_point random_sin E g n1) as [[g' n'] r] eqn:Hgen.
  apply IH. change g' with (fst (fst (g', n', r))). rewrite <- Hgen.
  apply generate_within_bounds, Hg.
Qed.

Lemma stored_values_stay_within_bounds_witness :
  unit_bounded steady /\
  Forall (fun kv => within_bounds (fst kv) (snd kv))
    (base_values (fst (generate_many (Some (fun _ => 0%Q)) steady 3
                         (fst (DataGenerator_init steady (JStr "weather") 0))
                         7))).
Proof.
  split; [exact steady_unit_bounded |].
  apply (stored_values_stay_within_bounds (Some (fun _ => 0%Q)) steady
           (JStr "weather") 0%nat 3%nat 7%nat steady_unit_bounded).
Defined.

(** X3: the metadata of a data point: [sequence] is a number from 0 to
    999999, [quality] lies in [0.95, 1] and [anomaly_score] in [0, 0.1]. *)
Theorem metadata_within_ranges :
  forall (random_sin : option (Q -> Q)) (E : Entropy) (g : DataGenerator)
         (n : nat) (dp : DataPoint),
    unit_bounded E ->
    snd (generate_data_point random_sin E g n) = Return dp ->
    (0 <= sequence (dp_metadata dp) < 1000000)%Z /\
    (95 # 100 <= quality (dp_metadata dp) <= 1)%Q /\
    (0 <= anomaly_score (dp_metadata dp) <= 1 # 10)%Q.
Proof.
  intros random_sin E g n dp HE. unfold generate_data_point.
  destruct (update_fields _ _ _ _ _ _ _ _) as [[bv n1] [data | e]];
    simpl; [| discriminate].
  intros [= <-]. simpl. split; [| split].
  - apply Z.mod_pos_bound. lia.
  - apply uniform_range; [exact HE | lra].
  - apply uniform_range; [exact HE | lra].
Qed.

Lemma metadata_within_ranges_witness :
  unit_bounded steady /\
  exists dp,
    snd (generate_data_point (Some (fun _ => 0%Q)) steady sample_generator 0)
    = Return dp /\
    (0 <= sequence (dp_metadata dp) < 1000000)%Z.
Proof.
  split; [exact steady_unit_bounded |].
  eexists. split; [vm_compute; reflexivity |].
  apply (metadata_within_ranges (Some (fun _ => 0%Q)) steady sample_generator
           0%nat _ steady_unit_bounded).
  vm_compute. reflexivity.
Defined.

(** X4: one call of [generate_data_point] moves a trend that is in its band
    by at most 0.0001, the largest draw of the random walk: the clamp never
    makes the step longer. *)
Theorem trend_moves_by_small_steps :
  forall (random_sin : option (Q -> Q)) (E : Entropy) (g : DataGenerator)
         (n : nat),
    unit_bounded E ->
    in_band (trend g) ->
    (Qabs (trend (fst (fst (generate_data_point random_sin E g n))) - trend g)
     <= 1 # 10000)%Q.
Proof.
  intros random_sin E g n HE [Hlo Hhi]. rewrite generate_trend.
  pose proof (uniform_range E (-(1 # 10000)) (1 # 10000) (n + 1) HE) as Hu.
  assert (Hd : (-(1 # 10000) <= 1 # 10000)%Q) by lra. specialize (Hu Hd).
  set (d := uniform E (-(1 # 10000)) (1 # 10000) (n + 1)) in *.
  apply Qabs_Qle_condition.
  destruct (Q.max_spec (-(5 # 1000)) (Qmin (5 # 1000) (trend g + d)))
    as [[Hc Hm] | [Hc Hm]];
    destruct (Q.min_spec (5 # 1000) (trend g + d)) as [[Hc' Hm'] | [Hc' Hm']];
    rewrite Hm; rewrite ?Hm'; rewrite ?Hm' in Hc; lra.
Qed.

Lemma trend_moves_by_small_steps_witness :
  unit_bounded steady /\ in_band (trend sample_generator) /\
  (Qabs (trend (fst (fst (generate_data_point cpython_random_sin steady
                            sample_generator 0)))
         - trend sample_generator) <= 1 # 10000)%Q.
Proof.
  split; [exact steady_unit_bounded |].
  assert (Hb : in_band (trend sample_generator)) by (unfold in_band; simpl; lra).
  split; [exact Hb |].
  apply (trend_moves_by_small_steps cpython_random_sin steady sample_generator
           0%nat steady_unit_bounded Hb).
Defined.

(** X5: the value shown in a data point differs from the value stored as
    the next base by at most 0.005, for every field: the data point is the
    stored state rounded to two decimals, field by field and in the same
    order. *)
Theorem shown_value_is_near_stored_value :
  (forall (key : string) (base t seasonal noise : Q),
     (Qabs (fst (update_field key base t seasonal noise)
            - snd (update_field key base t seasonal noise)) <= 1 # 200)%Q) /\
  (forall (random_sin : option (Q -> Q)) (E : Entropy) (g : DataGenerator)
          (n : nat) (dp : DataPoint),
     snd (generate_data_point random_sin E g n) = Return dp ->
     Forall2 (fun shown stored =>
                fst shown = fst stored /\
                (Qabs (snd shown - snd stored) <= 1 # 200)%Q)
       (dp_data dp)
       (base_values (fst (fst (generate_data_point random_sin E g n))))).
Proof.
  split.
  - intros key base t seasonal noise. simpl. apply round2_near.
  - intros random_sin E g n dp Hdp.
    pose proof (generate_unfold random_sin E g n) as [-> Hr]. simpl in Hr.
    destruct (update_fields _ _ _ _ _ _ _ _) as [[bv n'] r] eqn:Hrun.
    simpl in *. destruct r as [data | e]; [| congruence].
    destruct Hr as (dp' & Hdp' & Hdata). rewrite Hdp in Hdp'.
    injection Hdp' as <-. rewrite Hdata.
    rewrite (update_fields_shown _ _ _ _ _ _ _ _ _ _ _ Hrun eq_refl).
    clear. induction bv as [| [k v] bv IH]; constructor; [| exact IH].
    simpl. split; [reflexivity | apply round2_near].
Qed.

Lemma shown_value_is_near_stored_value_witness :
  exists dp,
    snd (generate_data_point (Some (fun _ => 0%Q)) steady sample_generator 0)
    = Return dp /\
    Forall2 (fun shown stored =>
               fst shown = fst stored /\
               (Qabs (snd shown - snd stored) <= 1 # 200)%Q)
      (dp_data dp)
      (base_values (fst (fst (generate_data_point (Some (fun _ => 0%Q)) steady
                                sample_generator 0)))).
Proof.
  eexists. split; [vm_compute; reflexivity |].
  apply (proj2 shown_value_is_near_stored_value (Some (fun _ => 0%Q)) steady
           sample_generator 0%nat).
  vm_compute. reflexivity.
Defined.

(** ** More on the message handler *)

(** X6: a [ping] message on an open connection is answered by one [pong]
    with a timestamp; nothing else changes, and the subscription in force
    for the connection stays as it was. *)
Theorem ping_replies_pong :
  forall (random_sin : option (Q -> Q)) (E : Entropy) (w : ws)
         (fields : list (string * json)) (W : World),
    obj_get fields "type" = Some (JStr "ping") ->
    w ∉ gone W ->
    handle_client_message random_sin E w (Json (JObj fields)) W =
      (set_outbox ((w, Pong (clock E (cursor W))) :: outbox W)
         (set_cursor (cursor W + 1) W),
       Return Completed) /\
    subscription w ((w, Pong (clock E (cursor W))) :: outbox W)
    = subscription w (outbox W).
Proof.
  intros random_sin E w fields W Ht Hg. split.
  - unfold_monad. simpl. rewrite Ht. simpl.
    destruct (decide (w ∈ gone W)); [contradiction | reflexivity].
  - simpl. now rewrite Nat.eqb_refl.
Qed.

Lemma ping_replies_pong_witness :
  let W := run_events cpython_random_sin steady [Connect 1] initial_world in
  handle_client_message cpython_random_sin steady 1
    (Json (JObj [("type", JStr "ping"); ("extra", JInt 3)])) W =
    (set_outbox ((1, Pong (clock steady (cursor W))) :: outbox W)
       (set_cursor (cursor W + 1) W),
     Return Completed).
Proof.
  intros W.
  refine (proj1 (ping_replies_pong cpython_random_sin steady 1
                   [("type", JStr "ping"); ("extra", JInt 3)] W _ _)).
  - reflexivity.
  - vm_compute. discriminate.
Defined.

(** X7: a JSON object whose [type] is none of ["subscribe"],
    ["unsubscribe"] and ["ping"] (or that has no [type] at all) is ignored:
    no reply, no log line, no change of state. *)
Theorem unknown_type_is_ignored :
  forall (random_sin : option (Q -> Q)) (E : Entropy) (w : ws)
         (fields : list (string * json)) (W : World),
    let msg_type := default JNull (obj_get fields "type") in
    msg_type <> JStr "subscribe" ->
    msg_type <> JStr "unsubscribe" ->
    msg_type <> JStr "ping" ->
    handle_client_message random_sin E w (Json (JObj fields)) W
    = (W, Return Completed).
Proof.
  intros random_sin E w fields W msg_type H1 H2 H3.
  assert (Hs : forall name, msg_type <> JStr name -> is_str msg_type name = false).
  { intros name Hn. destruct msg_type; try reflexivity. simpl.
    apply String.eqb_neq. congruence. }
  unfold_monad. simpl. fold msg_type.
  change (match obj_get fields "type" with Some v => v | None => JNull end)
    with msg_type.
  rewrite (Hs _ H1), (Hs _ H2), (Hs _ H3). reflexivity.
Qed.

Lemma unknown_type_is_ignored_witness :
  handle_client_message cpython_random_sin steady 1
    (Json (JObj [("type", JStr "pause")])) initial_world
  = (initial_world, Return Completed) /\
  handle_client_message cpython_random_sin steady 1
    (Json (JObj [("source", JStr "stock")])) initial_world
  = (initial_world, Return Completed).
Proof.
  split.
  - apply (unknown_type_is_ignored cpython_random_sin steady 1
             [("type", JStr "pause")] initial_world); discriminate.
  - apply (unknown_type_is_ignored cpython_random_sin steady 1
             [("source", JStr "stock")] initial_world); discriminate.
Defined.

(** X8: a [subscribe] whose [source] is a list or an object fails at the
    lookup [source not in self.data_generators] with [TypeError]: the
    handler prints the exception and returns; the client gets no reply and
    no generator is created. *)
Theorem unhashable_source_is_only_logged :
  forall (random_sin : option (Q -> Q)) (E : Entropy) (w : ws)
         (fields : list (string * json)) (source : json) (W : World),
    obj_get fields "type" = Some (JStr "subscribe") ->
    obj_get fields "source" = Some source ->
    hashable source = false ->
    handle_client_message random_sin E w (Json (JObj fields)) W
    = (set_printed (ErrorHandling TypeError :: printed W) W, Return Completed).
Proof.
  intros random_sin E w fields source W Ht Hs Hh.
  unfold_monad. unfold dict_contains. simpl. rewrite Ht, Hs. simpl.
  rewrite Hh. reflexivity.
Qed.

Lemma unhashable_source_is_only_logged_witness :
  handle_client_message cpython_random_sin steady 1
    (Json (JObj [("type", JStr "subscribe"); ("source", JArr [JStr "stock"])]))
    initial_world
  = (set_printed (ErrorHandling TypeError :: printed initial_world)
       initial_world,
     Return Completed).
Proof.
  apply (unhashable_source_is_only_logged cpython_random_sin steady 1 _
           (JArr [JStr "stock"]) initial_world); reflexivity.
Defined.



(** X10: a turn of the streaming loop for a session that is no longer in
    the registry (the stats sweep removed it) ends the loop at once:
    nothing is generated, sent or printed, and the handler goes back to
    waiting for the next message. *)
Theorem loop_stops_for_unregistered_session :
  forall (random_sin : option (Q -> Q)) (E : Entropy) (w : ws)
         (source frequency : json) (W : World),
    w ∉ clients (server W) ->
    resume_streaming random_sin E w source frequency W
    = (W, Return Completed) /\
    forall cid,
      tasks W !! w
      = Some {| client_id := cid; at_point := Sleeping source frequency |} ->
      step random_sin E W (Resume w) = park w cid AwaitMessage W.
Proof.
  intros random_sin E w source frequency W Hw.
  assert (Hr : resume_streaming random_sin E w source frequency W
               = (W, Return Completed)).
  { unfold_monad. rewrite bool_decide_eq_false_2 by exact Hw. reflexivity. }
  split; [exact Hr |]. intros cid Ht. simpl. unfold resume.
  rewrite Ht, Hr. reflexivity.
Qed.

Lemma loop_stops_for_unregistered_session_witness :
  let W := run_events (Some (fun _ => 0%Q)) steady
             [Connect 1; Receive 1 subscribe_frame; Resume 1; Drop 1; Tick]
             initial_world in
  step (Some (fun _ => 0%Q)) steady W (Resume 1)
  = park 1 "client_1" AwaitMessage W.
Proof.
  intros W.
  refine (proj2 (loop_stops_for_unregistered_session (Some (fun _ => 0%Q))
                   steady 1 (JStr "stock") (JInt 500) W _) "client_1" _).
  - vm_compute. discriminate.
  - vm_compute. reflexivity.
Defined.

(** X11: a tick of the stats task with an empty registry, or with
    [running] unset, changes nothing: no message, no clock reading. *)
Theorem idle_tick_does_nothing :
  forall (E : Entropy) (W : World),
    running (server W) = false \/ clients (server W) = ∅ ->
    broadcast_server_stats E W = (W, Return tt).
Proof.
  intros E W H. unfold broadcast_server_stats, get, bind, ret.
  destruct (running (server W)); [| reflexivity].
  destruct H as [H | H]; [discriminate |].
  rewrite bool_decide_eq_false_2; [reflexivity |]. intros Hne. contradiction.
Qed.

Lemma idle_tick_does_nothing_witness :
  broadcast_server_stats steady initial_world = (initial_world, Return tt).
Proof.
  apply (idle_tick_does_nothing steady initial_world). right. reflexivity.
Defined.

(** X12: when the connection of a waiting handler is closed and no frame is
    left to read, the handler leaves [register_client] through its
    [finally] clause.  If the session is still registered it is removed,
    the registry shrinks by one, the log line carries the new total and the
    handler returns; if it is not (the stats sweep came first),
    [self.clients.remove] raises [KeyError], the registry is untouched and
    the log line is never printed.  Nothing is sent either way. *)
Theorem handler_exit_removes_session :
  forall (random_sin : option (Q -> Q)) (E : Entropy) (w : ws) (cid : string)
         (W : World),
    tasks W !! w = Some {| client_id := cid; at_point := AwaitMessage |} ->
    inbox W !! w = None \/ inbox W !! w = Some [] ->
    w ∈ gone W ->
    let W' := step random_sin E W (Resume w) in
    (w ∈ clients (server W) ->
     clients (server W') = clients (server W) ∖ {[w]} /\
     size (clients (server W')) + 1 = size (clients (server W)) /\
     tasks W' !! w = Some {| client_id := cid; at_point := Returned |} /\
     printed W'
     = ClientDisconnected cid (size (clients (server W'))) :: printed W /\
     outbox W' = outbox W) /\
    (w ∉ clients (server W) ->
     server W' = server W /\
     tasks W' !! w = Some {| client_id := cid; at_point := Failed KeyError |} /\
     printed W' = printed W /\
     outbox W' = outbox W).
Proof.
  intros random_sin E w cid W Hw Hi Hg W'. subst W'. simpl. unfold resume.
  rewrite Hw.
  assert (Hfin : match inbox W !! w with
                 | Some (m :: rest) =>
                     after_handler w cid
                       (handle_client_message random_sin E w m
                          (set_inbox (<[w:=rest]> (inbox W)) W))
                 | _ => if decide (w ∈ gone W)
                        then finish w cid (Return tt) W else W
                 end = finish w cid (Return tt) W).
  { destruct Hi as [-> | ->]; destruct (decide (w ∈ gone W));
      try reflexivity; contradiction. }
  rewrite Hfin. clear Hfin.
  unfold finish, register_client_exit. unfold_monad. split; intros Hc.
  - rewrite bool_decide_eq_true_2 by exact Hc. simpl.
    rewrite lookup_insert_eq. repeat split; try reflexivity.
    rewrite size_difference by set_solver. rewrite size_singleton.
    assert (size (clients (server W)) <> 0); [| lia].
    apply size_non_empty_iff. set_solver.
  - rewrite bool_decide_eq_false_2 by exact Hc. simpl.
    rewrite lookup_insert_eq. destruct W as [[c d r] t i g o p n]; auto.
Qed.

Lemma handler_exit_removes_session_witness :
  let W := run_events cpython_random_sin steady
             [Connect 1; Connect 2; Drop 1] initial_world in
  clients (server (step cpython_random_sin steady W (Resume 1)))
  = clients (server W) ∖ {[1]}.
Proof.
  intros W.
  refine (proj1 (proj1 (handler_exit_removes_session cpython_random_sin steady
                          1 "client_1" W _ _ _) _)).
  - vm_compute. reflexivity.
  - left. vm_compute. reflexivity.
  - vm_compute. reflexivity.
  - vm_compute. reflexivity.
Defined.

(** X13: a connection that is already closed when [register_client]
    starts is registered, fails to get its welcome message and is removed
    again at once: the registry ends as it began, the handler returns, and
    both log lines are printed, the first with the total that counted the
    session. *)
Theorem connect_on_closed_connection_unregisters :
  forall (random_sin : option (Q -> Q)) (E : Entropy) (w : ws) (W : World),
    tasks W !! w = None ->
    w ∈ gone W ->
    w ∉ clients (server W) ->
    let W' := step random_sin E W (Connect w) in
    let cid := "client_" ++ decimal (size (clients (server W)) + 1) in
    clients (server W') = clients (server W) /\
    tasks W' !! w = Some {| client_id := cid; at_point := Returned |} /\
    outbox W' = outbox W /\
    printed W'
    = ClientDisconnected cid (size (clients (server W)))
        :: ClientConnected cid (size (clients (server W)) + 1) :: printed W.
Proof.
  intros random_sin E w W Hw Hg Hc W' cid. subst W' cid. simpl. rewrite Hw.
  unfold register_client, finish, register_client_exit. unfold_monad. simpl.
  destruct (decide (w ∈ gone W)); [| contradiction]. simpl.
  rewrite bool_decide_eq_true_2 by set_solver. simpl.
  rewrite lookup_insert_eq.
  assert (Hs : size ({[w]} ∪ clients (server W)) = size (clients (server W)) + 1).
  { rewrite size_union by set_solver. rewrite size_singleton. lia. }
  assert (Hd : ({[w]} ∪ clients (server W)) ∖ {[w]} = clients (server W))
    by set_solver.
  rewrite Hd, Hs. auto.
Qed.

Lemma connect_on_closed_connection_unregisters_witness :
  let W := run_events cpython_random_sin steady [Drop 1] initial_world in
  clients (server (step cpython_random_sin steady W (Connect 1)))
  = clients (server W).
Proof.
  intros W.
  refine (proj1 (connect_on_closed_connection_unregisters cpython_random_sin
                   steady 1 W _ _ _)).
  - vm_compute. reflexivity.
  - vm_compute. reflexivity.
  - vm_compute. discriminate.
Defined.

(** ** The registry of generators *)

Lemma handle_client_message_registry random_sin E w m W W' r :
  handle_client_message random_sin E w m W = (W', r) ->
  registry_step random_sin E (data_generators (server W))
    (data_generators (server W')).
Proof.
  unfold_monad. unfold dict_contains. intros H.
  repeat (case_match; simplify_eq/=); try absurd_raise;
    eauto 6 using registry_step.
Qed.

Lemma resume_streaming_registry random_sin E w s f W W' r :
  resume_streaming random_sin E w s f W = (W', r) ->
  registry_step random_sin E (data_generators (server W))
    (data_generators (server W')).
Proof.
  unfold_monad. intros H.
  repeat (case_match; simplify_eq/=); try absurd_raise;
    eauto 6 using registry_step.
Qed.

Lemma Qeq_bool_sym (x y : Q) : Qeq_bool x y = Qeq_bool y x.
Proof.
  destruct (Qeq_bool x y) eqn:Hxy, (Qeq_bool y x) eqn:Hyx; try reflexivity.
  - apply Qeq_bool_iff in Hxy. symmetry in Hxy. apply Qeq_bool_iff in Hxy.
    congruence.
  - apply Qeq_bool_iff in Hyx. symmetry in Hyx. apply Qeq_bool_iff in Hyx.
    congruence.
Qed.

Lemma py_eq_sym (a b : json) : py_eq a b = py_eq b a.
Proof.
  destruct a, b; simpl; try reflexivity;
    first [apply Qeq_bool_sym | apply String.eqb_sym].
Qed.

Lemma dict_lookup_app {V} (d : list (json * V)) k v key :
  dict_lookup (d ++ [(k, v)]) key
  = match dict_lookup d key with
    | Some x => Some x
    | None => if py_eq k key then Some v else None
    end.
Proof.
  induction d as [| [k' v'] d IH]; simpl; [reflexivity |].
  destruct (py_eq k' key); [reflexivity | exact IH].
Qed.

Lemma dict_update_keys {V} (d : list (json * V)) key v :
  map fst (dict_update d key v) = map fst d.
Proof.
  induction d as [| [k' v'] d IH]; simpl; [reflexivity |].
  destruct (py_eq k' key); simpl; [reflexivity | now rewrite IH].
Qed.

Lemma dict_lookup_none_keys {V} (d d' : list (json * V)) key :
  map fst d = map fst d' -> dict_lookup d key = None -> dict_lookup d' key = None.
Proof.
  revert d'. induction d as [| [k v] d IH]; intros [| [k' v'] d'] Hk;
    try discriminate; simpl; [reflexivity |].
  injection Hk as <- Hk. destruct (py_eq k key); [discriminate | apply IH, Hk].
Qed.

Lemma distinct_keys_keys {V} (d d' : list (json * V)) :
  map fst d = map fst d' -> distinct_keys d -> distinct_keys d'.
Proof.
  revert d'. induction d as [| [k v] d IH]; intros [| [k' v'] d'] Hk;
    try discriminate; simpl; [auto |].
  injection Hk as <- Hk. intros [Hl Hd]. split; [| apply IH; assumption].
  eapply dict_lookup_none_keys; eassumption.
Qed.

Lemma distinct_keys_app {V} (d : list (json * V)) k v :
  dict_lookup d k = None -> distinct_keys d -> distinct_keys (d ++ [(k, v)]).
Proof.
  induction d as [| [k' v'] d IH]; simpl; [auto |].
  destruct (py_eq k' k) eqn:Hkk; [discriminate |].
  intros Hl [Hn Hd]. split; [| apply IH; assumption].
  rewrite dict_lookup_app, Hn, py_eq_sym, Hkk. reflexivity.
Qed.

Lemma dict_update_Forall {V} (P : json * V -> Prop) (d : list (json * V))
    key v v' :
  dict_lookup d key = Some v ->
  (forall k, P (k, v) -> P (k, v')) ->
  Forall P d -> Forall P (dict_update d key v').
Proof.
  intros Hl Hp. induction d as [| [k x] d IH]; simpl in *; [constructor |].
  intros Hd. pose proof (Forall_inv Hd) as Hx.
  pose proof (Forall_inv_tail Hd) as Hrest.
  destruct (py_eq k key).
  - injection Hl as ->. constructor; [apply Hp, Hx | exact Hrest].
  - constructor; [exact Hx | apply IH; assumption].
Qed.

Lemma registry_step_keys random_sin E d d' :
  registry_step random_sin E d d' ->
  exists extra, map fst d' = (map fst d ++ extra)%list.
Proof.
  induction 1 as [d | d source n g n' d' Hh Hl Hi Hs [extra IH]
                 | d source g n g' n' r d' Hl Hg Hs [extra IH]].
  - exists []. now rewrite app_nil_r.
  - rewrite map_app, <- app_assoc in IH. eauto.
  - rewrite dict_update_keys in IH. eauto.
Qed.

Lemma registry_step_distinct random_sin E d d' :
  registry_step random_sin E d d' -> distinct_keys d -> distinct_keys d'.
Proof.
  induction 1 as [d | d source n g n' d' Hh Hl Hi Hs IH
                 | d source g n g' n' r d' Hl Hg Hs IH]; intros Hd.
  - exact Hd.
  - apply IH, distinct_keys_app; assumption.
  - apply IH. eapply distinct_keys_keys; [| exact Hd].
    symmetry. apply dict_update_keys.
Qed.

Lemma registry_step_Forall random_sin E (P : json * DataGenerator -> Prop) :
  (forall source n,
     hashable source = true -> P (source, fst (DataGenerator_init E source n))) ->
  (forall k g n,
     P (k, g) -> P (k, fst (fst (generate_data_point random_sin E g n)))) ->
  forall d d',
    registry_step random_sin E d d' -> Forall P d -> Forall P d'.
Proof.
  intros Hinit Hgen d d'.
  induction 1 as [d | d source n g n' d' Hh Hl Hi Hs IH
                 | d source g n g' n' r d' Hl Hg Hs IH]; intros Hd.
  - exact Hd.
  - apply IH, Forall_app. split; [exact Hd |]. constructor; [| constructor].
    change g with (fst (g, n')). rewrite <- Hi. apply Hinit, Hh.
  - apply IH. eapply dict_update_Forall; [exact Hl | | exact Hd].
    intros k Hk. change g' with (fst (fst (g', n', r))). rewrite <- Hg.
    apply Hgen, Hk.
Qed.

Lemma register_client_generators E w W :
  data_generators (server (register_client E w W)) = data_generators (server W).
Proof.
  unfold register_client, finish, register_client_exit. unfold_monad. simpl.
  repeat (case_match; simplify_eq/=); reflexivity.
Qed.

Lemma finish_generators w cid r W :
  data_generators (server (finish w cid r W)) = data_generators (server W).
Proof.
  unfold finish. destruct (register_client_exit w cid r W) as [W' r'] eqn:Hx.
  now apply register_client_exit_frame in Hx as (_ & _ & _ & _ & Hd).
Qed.

Lemma broadcast_generators E W :
  data_generators (server (fst (broadcast_server_stats E W)))
  = data_generators (server W).
Proof.
  unfold broadcast_server_stats, get, bind, now, modify, ret.
  destruct (running (server W)); [| reflexivity].
  destruct (bool_decide (clients (server W) ≠ ∅)); [| reflexivity].
  match goal with |- context [sweep ?cs ?st ?d ?W0] =>
    destruct (sweep cs st d W0) as [W1 r1] eqn:Hs;
    apply sweep_frame in Hs as (_ & _ & _ & Hsv & _ & _ & d' & -> & _ & _)
  end.
  simpl. now rewrite Hsv.
Qed.

Lemma after_handler_generators w cid W r :
  data_generators (server (after_handler w cid (W, r)))
  = data_generators (server W).
Proof.
  destruct r as [[| s f] | e]; simpl; try reflexivity.
  apply finish_generators.
Qed.

Lemma step_registry random_sin E W ev :
  registry_step random_sin E (data_generators (server W))
    (data_generators (server (step random_sin E W ev))).
Proof.
  destruct ev as [w | w m | w | w |]; simpl.
  - destruct (tasks W !! w); [constructor |].
    rewrite register_client_generators. constructor.
  - destruct (decide (w ∈ gone W)); constructor.
  - constructor.
  - unfold resume.
    destruct (tasks W !! w) as [[cid [| s f | |]] |]; try constructor.
    + destruct (inbox W !! w) as [[| m rest] |].
      * destruct (decide (w ∈ gone W)); [rewrite finish_generators |];
          constructor.
      * match goal with |- context [handle_client_message _ _ _ _ ?W0] =>
          destruct (handle_client_message random_sin E w m W0) as [W' r] eqn:Hh
        end.
        rewrite after_handler_generators.
        apply handle_client_message_registry in Hh. exact Hh.
      * destruct (decide (w ∈ gone W)); [rewrite finish_generators |];
          constructor.
    + destruct (resume_streaming random_sin E w s f W) as [W' r] eqn:Hh.
      rewrite after_handler_generators.
      apply resume_streaming_registry in Hh. exact Hh.
  - rewrite broadcast_generators. constructor.
Qed.

Lemma run_events_registry random_sin E
    (P : list (json * DataGenerator) -> Prop) :
  (forall d d', registry_step random_sin E d d' -> P d -> P d') ->
  forall evs W,
    P (data_generators (server W)) ->
    P (data_generators (server (run_events random_sin E evs W))).
Proof.
  intros HP. induction evs as [| ev evs IH]; intros W HW; simpl; [exact HW |].
  apply IH. eapply HP; [apply step_registry | exact HW].
Qed.

Lemma init_base_values_keys E E' src n m :
  map fst (fst (init_base_values E src n))
  = map fst (fst (init_base_values E' src m)).
Proof.
  unfold init_base_values.
  repeat (match goal with |- context [if ?b then _ else _] => destruct b end;
          [reflexivity |]).
  reflexivity.
Qed.

Lemma entry_ok_init E source n :
  hashable source = true ->
  entry_ok E (source, fst (DataGenerator_init E source n)).
Proof.
  intros Hh. unfold entry_ok. simpl. rewrite init_generator_base_values.
  unfold DataGenerator_init. destruct (init_base_values E source n) eqn:Hi.
  simpl. repeat split; auto.
  change l with (fst (l, n0)). rewrite <- Hi. apply init_base_values_keys.
Qed.

Lemma entry_ok_generate random_sin E k g n :
  entry_ok E (k, g) ->
  entry_ok E (k, fst (fst (generate_data_point random_sin E g n))).
Proof.
  unfold entry_ok. simpl. intros (Hh & Hs & Hb & Hv).
  destruct (generate_shape random_sin E g n) as (Hs' & Hv' & Hb').
  rewrite Hs', Hv', Hb'. auto.
Qed.

Lemma entry_ok_field_count E kg :
  entry_ok E kg ->
  length (base_values (snd kg))
  = length (fst (init_base_values E (fst kg) 0)).
Proof.
  intros (_ & _ & Hk & _).
  rewrite <- (length_map fst (base_values (snd kg))), Hk. apply length_map.
Qed.

Lemma run_events_entry_ok random_sin E evs :
  Forall (entry_ok E)
    (data_generators (server (run_events random_sin E evs initial_world))).
Proof.
  apply (run_events_registry random_sin E (Forall (entry_ok E))).
  - intros d d' Hs Hf.
    eapply registry_step_Forall; [| | exact Hs | exact Hf].
    + intros. now apply entry_ok_init.
    + intros. now apply entry_ok_generate.
  - constructor.
Qed.

(** X14: in every run of the server the registry holds at most one generator for
    each source (no two keys are equal as Python compares them); the
    generator registered under a key was built for that key, keeps the field
    names its constructor gave it and the volatility 0.02. *)
Theorem registry_has_one_generator_per_source :
  forall (random_sin : option (Q -> Q)) (E : Entropy) (evs : list event),
    let d := data_generators
               (server (run_events random_sin E evs initial_world)) in
    distinct_keys d /\ Forall (entry_ok E) d.
Proof.
  intros random_sin E evs. split; [| apply run_events_entry_ok].
  apply (run_events_registry random_sin E distinct_keys).
  - intros d d' Hs Hd. eapply registry_step_distinct; eassumption.
  - exact I.
Qed.

(** X15: no source is ever removed from the registry, and the sources keep the
    order in which they were first subscribed to: the keys of the registry
    at any moment of a run are a prefix of its keys at any later moment. *)
Theorem sources_are_never_removed :
  forall (random_sin : option (Q -> Q)) (E : Entropy) (evs later : list event)
         (W : World),
    exists extra,
      map fst (data_generators
                 (server (run_events random_sin E (evs ++ later) W)))
      = (map fst (data_generators (server (run_events random_sin E evs W)))
           ++ extra)%list.
Proof.
  intros random_sin E evs later W. unfold run_events.
  rewrite fold_left_app. fold (run_events random_sin E evs W).
  generalize (run_events random_sin E evs W) as W0. clear.
  intros W0.
  apply (run_events_registry random_sin E
           (fun d => exists extra,
                map fst d = (map fst (data_generators (server W0))
                               ++ extra)%list)).
  - intros d d' Hs [extra He].
    apply registry_step_keys in Hs as [extra' He'].
    exists (extra ++ extra')%list. now rewrite He', He, <- app_assoc.
  - exists []. now rewrite app_nil_r.
Qed.

Lemma entry_sound_init E source n :
  unit_bounded E ->
  entry_sound (source, fst (DataGenerator_init E source n)).
Proof.
  intros HE. split; simpl.
  - apply init_generator_trend, HE.
  - rewrite init_generator_base_values. apply init_within_bounds, HE.
Qed.

Lemma entry_sound_generate random_sin E k g n :
  entry_sound (k, g) ->
  entry_sound (k, fst (fst (generate_data_point random_sin E g n))).
Proof.
  intros [Ht Hb]. split; simpl in *.
  - apply generate_trend_in_band.
  - apply generate_within_bounds, Hb.
Qed.

(** X16: with draws of [random.random] in the unit interval, every generator of
    the registry has, at every moment of every run, its trend within
    [-0.005, 0.005] and every stored value within the bounds of its field,
    whatever the sessions subscribed to and however their loops were
    interleaved. *)
Theorem registered_generators_stay_sound :
  forall (random_sin : option (Q -> Q)) (E : Entropy) (evs : list event),
    unit_bounded E ->
    Forall entry_sound
      (data_generators (server (run_events random_sin E evs initial_world))).
Proof.
  intros random_sin E evs HE.
  apply (run_events_registry random_sin E (Forall entry_sound)).
  - intros d d' Hs Hf.
    eapply registry_step_Forall; [| | exact Hs | exact Hf].
    + intros. now apply entry_sound_init.
    + intros. now apply entry_sound_generate.
  - constructor.
Qed.

Lemma registered_generators_stay_sound_witness :
  unit_bounded steady /\
  Forall entry_sound
    (data_generators
       (server (run_events (Some (fun _ => 0%Q)) steady
                  [Connect 1; Receive 1 subscribe_frame; Resume 1; Resume 1]
                  initial_world))).
Proof.
  split; [exact steady_unit_bounded |].
  apply (registered_generators_stay_sound (Some (fun _ => 0%Q)) steady
           [Connect 1; Receive 1 subscribe_frame; Resume 1; Resume 1]
           steady_unit_bounded).
Defined.

(** X17: the statistic [data_points_sent] of the stats message does not count
    data points: in every run it is the number of fields of the registered
    generators, which the sources in the registry determine (3 for
    ["stock"], 4 for ["sensor"], ["network"] and ["crypto"], 5 for
    ["weather"], 1 for any other source), however many data points were
    sent. *)
Theorem data_points_sent_counts_fields :
  forall (random_sin : option (Q -> Q)) (E : Entropy) (evs : list event),
    let S := server (run_events random_sin E evs initial_world) in
    list_sum (map (fun kv => length (base_values (snd kv)))
                (data_generators S))
    = list_sum (map (fun src => length (fst (init_base_values E src 0)))
                  (map fst (data_generators S))) /\
    (forall src n,
       length (fst (init_base_values E src n))
       = if is_source src "stock" then 3
         else if is_source src "weather" then 5
         else if is_source src "sensor" || is_source src "network"
                 || is_source src "crypto" then 4
         else 1).
Proof.
  intros random_sin E evs S. split.
  - pose proof (run_events_entry_ok random_sin E evs) as Hok. fold S in Hok.
    induction Hok as [| kg d Hkg Hd IH]; [reflexivity |].
    simpl. rewrite IH, (entry_ok_field_count E kg Hkg). reflexivity.
  - intros src n. unfold init_base_values.
    destruct src; try reflexivity. unfold is_source.
    repeat (match goal with |- context [String.eqb ?a ?b] =>
              destruct (String.eqb_spec a b); subst; simpl;
                try reflexivity; try congruence
            end).
Qed.

(** ** Sessions and their handlers *)

Lemma finish_cases w cid r W :
  r = Return tt \/ r = Raise ConnectionClosed ->
  ((w ∈ clients (server W)) /\
   tasks (finish w cid r W)
   = <[w := {| client_id := cid; at_point := Returned |}]> (tasks W) /\
   clients (server (finish w cid r W)) = clients (server W) ∖ {[w]}) \/
  ((w ∉ clients (server W)) /\
   tasks (finish w cid r W)
   = <[w := {| client_id := cid; at_point := Failed KeyError |}]> (tasks W) /\
   clients (server (finish w cid r W)) = clients (server W)).
Proof.
  intros Hr. unfold finish, register_client_exit. unfold_monad.
  destruct (decide (w ∈ clients (server W))) as [Hin | Hout].
  - left. rewrite bool_decide_eq_true_2 by exact Hin.
    destruct Hr as [-> | ->]; simpl; auto.
  - right. rewrite bool_decide_eq_false_2 by exact Hout. simpl. auto.
Qed.

Lemma after_handler_cases w cid W r :
  (r = Raise ConnectionClosed \/ exists p, r = Return p) ->
  (exists s, live s = true /\
     tasks (after_handler w cid (W, r))
     = <[w := {| client_id := cid; at_point := s |}]> (tasks W) /\
     clients (server (after_handler w cid (W, r))) = clients (server W)) \/
  ((w ∈ clients (server W)) /\
   tasks (after_handler w cid (W, r))
   = <[w := {| client_id := cid; at_point := Returned |}]> (tasks W) /\
   clients (server (after_handler w cid (W, r))) = clients (server W) ∖ {[w]}) \/
  ((w ∉ clients (server W)) /\
   tasks (after_handler w cid (W, r))
   = <[w := {| client_id := cid; at_point := Failed KeyError |}]> (tasks W) /\
   clients (server (after_handler w cid (W, r))) = clients (server W)).
Proof.
  intros [-> | [[| s f] ->]]; simpl.
  - right. apply finish_cases. auto.
  - left. exists AwaitMessage. auto.
  - left. exists (Sleeping s f). auto.
Qed.

Lemma register_client_cases E w W :
  exists cid,
    (tasks (register_client E w W)
     = <[w := {| client_id := cid; at_point := AwaitMessage |}]> (tasks W) /\
     clients (server (register_client E w W)) = {[w]} ∪ clients (server W)) \/
    (tasks (register_client E w W)
     = <[w := {| client_id := cid; at_point := Returned |}]> (tasks W) /\
     clients (server (register_client E w W))
     = ({[w]} ∪ clients (server W)) ∖ {[w]}).
Proof.
  unfold register_client. unfold_monad. simpl.
  destruct (decide (w ∈ gone W)) as [Hin | Hout]; simpl.
  - eexists. right.
    match goal with |- context [finish w ?c ?r ?W0] =>
      destruct (finish_cases w c r W0) as [(_ & Ht & Hc) | (Hn & _)];
        [auto | |]
    end.
    + rewrite Ht, Hc. simpl. auto.
    + exfalso. apply Hn. simpl. set_solver.
  - eexists. left. split; reflexivity.
Qed.

Lemma broadcast_clients E W :
  tasks (fst (broadcast_server_stats E W)) = tasks W /\
  clients (server (fst (broadcast_server_stats E W))) ⊆ clients (server W).
Proof.
  split; [apply broadcast_frame |].
  unfold broadcast_server_stats, get, bind, now, modify, ret.
  destruct (running (server W)); [| reflexivity].
  destruct (bool_decide (clients (server W) ≠ ∅)); [| reflexivity].
  match goal with |- context [sweep ?cs ?st ?d ?W0] =>
    destruct (sweep cs st d W0) as [W1 r1] eqn:Hs;
    apply sweep_frame in Hs as (_ & _ & _ & Hsv & _ & _ & d' & -> & _ & _)
  end.
  simpl. rewrite Hsv. simpl. set_solver.
Qed.

Lemma lifecycle_update w t W W' :
  lifecycle W ->
  tasks W' = <[w := t]> (tasks W) ->
  clients (server W') ⊆ {[w]} ∪ clients (server W) ->
  match at_point t with
  | AwaitMessage | Sleeping _ _ => True
  | Returned => w ∉ clients (server W')
  | Failed e => e = KeyError /\ w ∉ clients (server W')
  end ->
  lifecycle W'.
Proof.
  intros HW Ht Hc Hw w'. rewrite Ht.
  destruct (decide (w = w')) as [<- | Hne].
  - rewrite lookup_insert_eq. exact Hw.
  - rewrite lookup_insert_ne by exact Hne. specialize (HW w').
    destruct (tasks W !! w') as [[cid' [| s f | | e]] |]; simpl in *;
      auto; set_solver.
Qed.

Lemma in_step_update w t W W' :
  in_step W ->
  tasks W' = <[w := t]> (tasks W) ->
  (forall w', w' <> w ->
     w' ∈ clients (server W') <-> w' ∈ clients (server W)) ->
  match at_point t with
  | AwaitMessage | Sleeping _ _ => w ∈ clients (server W')
  | Returned => w ∉ clients (server W')
  | Failed _ => False
  end ->
  in_step W'.
Proof.
  intros HW Ht Hc Hw w'. rewrite Ht.
  destruct (decide (w = w')) as [<- | Hne].
  - rewrite lookup_insert_eq. exact Hw.
  - rewrite lookup_insert_ne by exact Hne. specialize (HW w').
    assert (Hne' : w' <> w) by congruence. specialize (Hc w' Hne').
    destruct (tasks W !! w') as [[cid' [| s f | | e]] |]; simpl in *;
      auto; tauto.
Qed.

Lemma handler_result_cases random_sin E w m W W' r :
  handle_client_message random_sin E w m W = (W', r) ->
  tasks W' = tasks W /\ clients (server W') = clients (server W) /\
  (r = Raise ConnectionClosed \/ exists p, r = Return p).
Proof.
  intros Hh.
  apply handle_client_message_handled in Hh as (Ht & _ & _ & Hc & Hh).
  split; [exact Ht |]. split; [exact Hc |].
  inversion Hh as [r0 Hr | | | s f t dp t' r0 Hr]; subst; eauto.
  - destruct Hr as [-> | ->]; eauto.
  - destruct Hr as [-> | ->]; eauto.
Qed.

Lemma streaming_result_cases random_sin E w s f W W' r :
  resume_streaming random_sin E w s f W = (W', r) ->
  tasks W' = tasks W /\ clients (server W') = clients (server W) /\
  (r = Raise ConnectionClosed \/ exists p, r = Return p).
Proof.
  intros Hh.
  apply resume_streaming_streamed in Hh as (Ht & _ & _ & Hc & Hh).
  split; [exact Ht |]. split; [exact Hc |].
  inversion Hh as [| dp t r0 Hr]; subst; eauto.
  destruct Hr as [-> | ->]; eauto.
Qed.

Lemma lifecycle_after w cid W W' r :
  lifecycle W ->
  tasks W' = tasks W -> clients (server W') = clients (server W) ->
  (r = Raise ConnectionClosed \/ exists p, r = Return p) ->
  lifecycle (after_handler w cid (W', r)).
Proof.
  intros HW Ht Hc Hr.
  destruct (after_handler_cases w cid W' r Hr)
    as [(s & Hs & Ht' & Hc') | [(Hin & Ht' & Hc') | (Hout & Ht' & Hc')]].
  - apply (lifecycle_update w {| client_id := cid; at_point := s |} W); auto.
    + now rewrite Ht', Ht.
    + rewrite Hc', Hc. set_solver.
    + destruct s; simpl in *; auto; discriminate.
  - apply (lifecycle_update w {| client_id := cid; at_point := Returned |} W);
      auto.
    + now rewrite Ht', Ht.
    + rewrite Hc', Hc. set_solver.
    + cbn [at_point]. rewrite Hc'. set_solver.
  - apply (lifecycle_update w
             {| client_id := cid; at_point := Failed KeyError |} W); auto.
    + now rewrite Ht', Ht.
    + rewrite Hc', Hc. set_solver.
    + cbn [at_point]. rewrite Hc'. auto.
Qed.

Lemma in_step_after w cid s0 W W' r :
  in_step W ->
  tasks W !! w = Some {| client_id := cid; at_point := s0 |} ->
  live s0 = true ->
  tasks W' = tasks W -> clients (server W') = clients (server W) ->
  (r = Raise ConnectionClosed \/ exists p, r = Return p) ->
  in_step (after_handler w cid (W', r)).
Proof.
  intros HW Hw Hl Ht Hc Hr.
  assert (Hin : w ∈ clients (server W)).
  { specialize (HW w). rewrite Hw in HW. destruct s0; simpl in *; auto;
      discriminate. }
  destruct (after_handler_cases w cid W' r Hr)
    as [(s & Hs & Ht' & Hc') | [(_ & Ht' & Hc') | (Hout & _)]].
  - apply (in_step_update w {| client_id := cid; at_point := s |} W); auto.
    + now rewrite Ht', Ht.
    + intros w' _. now rewrite Hc', Hc.
    + rewrite Hc', Hc. destruct s; simpl in *; auto; discriminate.
  - apply (in_step_update w {| client_id := cid; at_point := Returned |} W);
      auto.
    + now rewrite Ht', Ht.
    + intros w' Hne. rewrite Hc', Hc. set_solver.
    + cbn [at_point]. rewrite Hc'. set_solver.
  - exfalso. apply Hout. now rewrite Hc.
Qed.

Lemma step_lifecycle random_sin E W ev :
  lifecycle W -> lifecycle (step random_sin E W ev).
Proof.
  intros HW. destruct ev as [w | w m | w | w |]; simpl.
  - destruct (tasks W !! w) eqn:Hw; [exact HW |].
    destruct (register_client_cases E w W) as [cid [[Ht Hc] | [Ht Hc]]].
    + eapply lifecycle_update; [exact HW | exact Ht | |]; cbn [at_point]; auto.
      rewrite Hc. set_solver.
    + eapply lifecycle_update; [exact HW | exact Ht | |]; cbn [at_point].
      * rewrite Hc. set_solver.
      * rewrite Hc. set_solver.
  - destruct (decide (w ∈ gone W)); exact HW.
  - exact HW.
  - unfold resume.
    destruct (tasks W !! w) as [[cid [| s f | |]] |] eqn:Hw; try exact HW.
    + assert (Hfin : lifecycle (finish w cid (Return tt) W)).
      { destruct (finish_cases w cid (Return tt) W)
          as [(Hin & Ht & Hc) | (Hout & Ht & Hc)]; [auto | |].
        - eapply lifecycle_update; [exact HW | exact Ht | |]; cbn [at_point];
            rewrite Hc; set_solver.
        - eapply lifecycle_update; [exact HW | exact Ht | |]; cbn [at_point];
            rewrite Hc; [set_solver | auto]. }
      destruct (inbox W !! w) as [[| m rest] |].
      * destruct (decide (w ∈ gone W)); [exact Hfin | exact HW].
      * match goal with |- context [handle_client_message _ _ _ _ ?W0] =>
          destruct (handle_client_message random_sin E w m W0) as [W' r] eqn:Hh
        end.
        apply handler_result_cases in Hh as (Ht & Hc & Hr).
        exact (lifecycle_after w cid W W' r HW Ht Hc Hr).
      * destruct (decide (w ∈ gone W)); [exact Hfin | exact HW].
    + destruct (resume_streaming random_sin E w s f W) as [W' r] eqn:Hh.
      apply streaming_result_cases in Hh as (Ht & Hc & Hr).
      exact (lifecycle_after w cid W W' r HW Ht Hc Hr).
  - destruct (broadcast_clients E W) as [Ht Hc]. intros w.
    rewrite Ht. specialize (HW w).
    destruct (tasks W !! w) as [[cid' [| s f | | e]] |]; simpl in *;
      auto; set_solver.
Qed.

Lemma step_in_step random_sin E W ev :
  ev <> Tick -> in_step W -> in_step (step random_sin E W ev).
Proof.
  intros Hev HW. destruct ev as [w | w m | w | w |]; simpl; [| | | | congruence].
  - destruct (tasks W !! w) eqn:Hw; [exact HW |].
    assert (Hout : w ∉ clients (server W)).
    { specialize (HW w). now rewrite Hw in HW. }
    destruct (register_client_cases E w W) as [cid [[Ht Hc] | [Ht Hc]]].
    + eapply in_step_update; [exact HW | exact Ht | |]; cbn [at_point].
      * intros w' Hne. rewrite Hc. set_solver.
      * rewrite Hc. set_solver.
    + eapply in_step_update; [exact HW | exact Ht | |]; cbn [at_point].
      * intros w' Hne. rewrite Hc. set_solver.
      * rewrite Hc. set_solver.
  - destruct (decide (w ∈ gone W)); exact HW.
  - exact HW.
  - unfold resume.
    destruct (tasks W !! w) as [[cid [| s f | |]] |] eqn:Hw; try exact HW.
    + assert (Hin : w ∈ clients (server W)).
      { specialize (HW w). now rewrite Hw in HW. }
      assert (Hfin : in_step (finish w cid (Return tt) W)).
      { destruct (finish_cases w cid (Return tt) W)
          as [(_ & Ht & Hc) | (Hout & _)]; [auto | | contradiction].
        eapply in_step_update; [exact HW | exact Ht | |]; cbn [at_point].
        - intros w' Hne. rewrite Hc. set_solver.
        - rewrite Hc. set_solver. }
      destruct (inbox W !! w) as [[| m rest] |].
      * destruct (decide (w ∈ gone W)); [exact Hfin | exact HW].
      * match goal with |- context [handle_client_message _ _ _ _ ?W0] =>
          destruct (handle_client_message random_sin E w m W0) as [W' r] eqn:Hh
        end.
        apply handler_result_cases in Hh as (Ht & Hc & Hr).
        exact (in_step_after w cid AwaitMessage W W' r HW Hw eq_refl Ht Hc Hr).
      * destruct (decide (w ∈ gone W)); [exact Hfin | exact HW].
    + destruct (resume_streaming random_sin E w s f W) as [W' r] eqn:Hh.
      apply streaming_result_cases in Hh as (Ht & Hc & Hr).
      exact (in_step_after w cid (Sleeping s f) W W' r HW Hw eq_refl Ht Hc Hr).
Qed.

Lemma lifecycle_initial : lifecycle initial_world.
Proof. intros w. simpl. rewrite lookup_empty. set_solver. Qed.

Lemma in_step_initial : in_step initial_world.
Proof. intros w. simpl. rewrite lookup_empty. set_solver. Qed.

Lemma run_events_lifecycle random_sin E evs :
  forall W, lifecycle W -> lifecycle (run_events random_sin E evs W).
Proof.
  induction evs as [| ev evs IH]; intros W HW; simpl; [exact HW |].
  apply IH, step_lifecycle, HW.
Qed.

Lemma run_events_in_step random_sin E evs :
  Forall (fun ev => ev <> Tick) evs ->
  forall W, in_step W -> in_step (run_events random_sin E evs W).
Proof.
  induction 1 as [| ev evs Hev Hevs IH]; intros W HW; simpl; [exact HW |].
  apply IH, step_in_step; assumption.
Qed.

(** X18: in every run of the server, a registered session has a handler that is
    suspended (waiting for a message or sleeping in its streaming loop): a
    handler that has ended has left the registry.  And a handler can fail
    only with the [KeyError] of the removal in its [finally] clause: every
    other exception is caught on the way. *)
Theorem registered_sessions_have_live_handlers :
  forall (random_sin : option (Q -> Q)) (E : Entropy) (evs : list event)
         (w : ws),
    let W := run_events random_sin E evs initial_world in
    (w ∈ clients (server W) ->
     exists cid s,
       tasks W !! w = Some {| client_id := cid; at_point := s |} /\
       live s = true) /\
    (forall cid e,
       tasks W !! w = Some {| client_id := cid; at_point := Failed e |} ->
       e = KeyError /\ w ∉ clients (server W)).
Proof.
  intros random_sin E evs w W.
  pose proof (run_events_lifecycle random_sin E evs _ lifecycle_initial w)
    as HW.
  fold W in HW. split.
  - intros Hin.
    destruct (tasks W !! w) as [[cid [| s f | | e]] |]; simpl in HW;
      try (exfalso; tauto); eauto.
  - intros cid e Hw. rewrite Hw in HW. exact HW.
Qed.

Lemma registered_sessions_have_live_handlers_witness :
  let W := run_events cpython_random_sin steady
             [Connect 1; Connect 2; Drop 1; Tick; Resume 1] initial_world in
  (2 ∈ clients (server W)) /\
  (exists cid s,
     tasks W !! 2 = Some {| client_id := cid; at_point := s |} /\
     live s = true) /\
  tasks W !! 1 = Some {| client_id := "client_1"; at_point := Failed KeyError |} /\
  KeyError = KeyError /\ (1 ∉ clients (server W)).
Proof.
  intros W.
  assert (H2 : 2 ∈ clients (server W)) by (vm_compute; reflexivity).
  assert (H1 : tasks W !! 1
               = Some {| client_id := "client_1";
                         at_point := Failed KeyError |})
    by (vm_compute; reflexivity).
  split; [exact H2 |]. split.
  - exact (proj1 (registered_sessions_have_live_handlers cpython_random_sin
                    steady [Connect 1; Connect 2; Drop 1; Tick; Resume 1] 2)
             H2).
  - split; [exact H1 |].
    exact (proj2 (registered_sessions_have_live_handlers cpython_random_sin
                    steady [Connect 1; Connect 2; Drop 1; Tick; Resume 1] 1)
             "client_1" KeyError H1).
Defined.

(** X19: without the stats task (the server of [streaming-demo-server.py] has
    none) the only removal of a session is the one in the [finally] clause
    of its own handler: in every run a session is registered exactly while
    its handler is suspended, and no handler ever fails. *)
Theorem without_stats_task_no_handler_fails :
  forall (random_sin : option (Q -> Q)) (E : Entropy) (evs : list event)
         (w : ws),
    Forall (fun ev => ev <> Tick) evs ->
    let W := run_events random_sin E evs initial_world in
    (w ∈ clients (server W) <->
     exists cid s,
       tasks W !! w = Some {| client_id := cid; at_point := s |} /\
       live s = true) /\
    (forall cid e,
       tasks W !! w <> Some {| client_id := cid; at_point := Failed e |}).
Proof.
  intros random_sin E evs w Hevs W.
  pose proof (run_events_in_step random_sin E evs Hevs _ in_step_initial w)
    as HW.
  fold W in HW. split; [split |].
  - intros Hin.
    destruct (tasks W !! w) as [[cid [| s f | | e]] |]; simpl in HW;
      try (exfalso; tauto); eauto.
  - intros (cid & s & Hw & Hs). rewrite Hw in HW.
    destruct s; simpl in *; auto; discriminate.
  - intros cid e Hw. rewrite Hw in HW. exact HW.
Qed.

Lemma without_stats_task_no_handler_fails_witness :
  let evs := [Connect 1; Connect 2; Drop 1; Resume 1] in
  let W := run_events cpython_random_sin steady evs initial_world in
  Forall (fun ev => ev <> Tick) evs /\
  (2 ∈ clients (server W) <->
   exists cid s,
     tasks W !! 2 = Some {| client_id := cid; at_point := s |} /\
     live s = true).
Proof.
  intros evs W.
  assert (Hevs : Forall (fun ev => ev <> Tick) evs)
    by (repeat constructor; discriminate).
  split; [exact Hevs |].
  exact (proj1 (without_stats_task_no_handler_fails cpython_random_sin steady
                  evs 2 Hevs)).
Defined.

(** ** Streaming, with and without [random.sin] *)

Lemma generate_none_never_returns E g n g' n' dp :
  base_values g <> [] ->
  generate_data_point None E g n = (g', n', Return dp) -> False.
Proof.
  intros Hne Hg. pose proof (generate_unfold None E g n) as [_ Hr].
  simpl in Hr. rewrite update_fields_none in Hr by exact Hne. simpl in Hr.
  rewrite Hg in Hr. discriminate.
Qed.

Lemma dict_lookup_Forall {V} (P : json * V -> Prop) (Q : V -> Prop)
    (d : list (json * V)) key v :
  (forall k x, P (k, x) -> Q x) ->
  dict_lookup d key = Some v -> Forall P d -> Q v.
Proof.
  intros HPQ. induction d as [| [k x] d IH]; simpl; [discriminate |].
  intros Hl Hd. destruct (py_eq k key).
  - injection Hl as <-. eapply HPQ, (Forall_inv Hd).
  - apply IH; [exact Hl | exact (Forall_inv_tail Hd)].
Qed.

Lemma has_fields_init E source n :
  has_fields (source, fst (DataGenerator_init E source n)).
Proof.
  unfold has_fields. simpl. rewrite init_generator_base_values.
  apply init_base_values_nonempty.
Qed.

Lemma has_fields_generate random_sin E k g n :
  has_fields (k, g) ->
  has_fields (k, fst (fst (generate_data_point random_sin E g n))).
Proof.
  unfold has_fields. simpl. intros Hg Hnil.
  destruct (generate_shape random_sin E g n) as (_ & _ & Hk).
  rewrite Hnil in Hk. destruct (base_values g); [congruence | discriminate].
Qed.

Lemma registry_step_has_fields random_sin E d d' :
  registry_step random_sin E d d' ->
  Forall has_fields d -> Forall has_fields d'.
Proof.
  apply registry_step_Forall.
  - intros. apply has_fields_init.
  - intros. now apply has_fields_generate.
Qed.

Lemma lookup_has_fields d source g :
  Forall has_fields d -> dict_lookup d source = Some g -> base_values g <> [].
Proof.
  intros Hd Hl.
  apply (dict_lookup_Forall has_fields (fun g => base_values g <> []) d
           source g); auto.
Qed.

Lemma lookup_created_has_fields E d source0 n g0 n0 source g :
  Forall has_fields d ->
  DataGenerator_init E source0 n = (g0, n0) ->
  dict_lookup (d ++ [(source0, g0)]) source = Some g ->
  base_values g <> [].
Proof.
  intros Hd Hi Hl. eapply lookup_has_fields; [| exact Hl].
  apply Forall_app. split; [exact Hd |]. constructor; [| constructor].
  change g0 with (fst (g0, n0)). rewrite <- Hi. apply has_fields_init.
Qed.

Ltac absurd_data :=
  match goal with
  | Hg : generate_data_point None _ ?g _ = (_, _, Return _) |- _ =>
      exfalso; apply (generate_none_never_returns _ _ _ _ _ _
                        ltac:(first [ eapply lookup_has_fields; eassumption
                                    | eapply lookup_created_has_fields;
                                      eassumption ]) Hg)
  end.

Lemma handle_client_message_cpython E w m W W' r :
  Forall has_fields (data_generators (server W)) ->
  handle_client_message None E w m W = (W', r) ->
  (r = Return Completed \/ r = Raise ConnectionClosed) /\
  (outbox W' = outbox W \/
   exists msg, is_data msg = false /\ outbox W' = (w, msg) :: outbox W).
Proof.
  intros Hd. unfold_monad. unfold dict_contains. intros H.
  repeat (case_match; simplify_eq/=); try absurd_raise; try absurd_data;
    (split; [auto |]); eauto.
  all: right; eexists; split; [| reflexivity]; reflexivity.
Qed.

Lemma silent_park w cid s W W' :
  silent W ->
  is_sleeping s = false ->
  tasks W' = <[w := {| client_id := cid; at_point := s |}]> (tasks W) ->
  Forall (fun wm => is_data (snd wm) = false) (outbox W') ->
  Forall has_fields (data_generators (server W')) ->
  silent W'.
Proof.
  intros (_ & Ht & _) Hs Ht' Ho Hd. split; [exact Ho |]. split; [| exact Hd].
  intros w' t. rewrite Ht'. destruct (decide (w = w')) as [<- | Hne].
  - rewrite lookup_insert_eq. intros [= <-]. exact Hs.
  - rewrite lookup_insert_ne by exact Hne. apply Ht.
Qed.

Lemma neutral_is_not_data m : neutral m -> is_data m = false.
Proof. destruct m; simpl; auto; contradiction. Qed.

Lemma step_silent E W ev :
  silent W -> silent (step None E W ev).
Proof.
  intros HW. pose proof HW as (Ho & Ht & Hd).
  assert (Hd' : Forall has_fields
                  (data_generators (server (step None E W ev)))).
  { eapply registry_step_has_fields; [apply step_registry | exact Hd]. }
  destruct ev as [w | w m | w | w |]; simpl in *.
  - destruct (tasks W !! w) eqn:Hw; [exact HW |].
    destruct (register_client_frame E w W) as (cid & s & Ht' & Hsl & _ & _ & Ho').
    apply (silent_park w cid s W); auto.
    destruct Ho' as [-> | (msg & Hm & ->)]; [exact Ho |].
    constructor; [apply neutral_is_not_data, Hm | exact Ho].
  - destruct (decide (w ∈ gone W)); exact HW.
  - exact HW.
  - unfold resume in *.
    destruct (tasks W !! w) as [[cid [| s f | |]] |] eqn:Hw; try exact HW.
    + assert (Hfin : forall W0 r0,
                tasks W0 = tasks W ->
                Forall (fun wm => is_data (snd wm) = false) (outbox W0) ->
                Forall has_fields
                  (data_generators (server (finish w cid r0 W0))) ->
                silent (finish w cid r0 W0)).
      { intros W0 r0 Ht0 Ho0 Hd0.
        destruct (finish_frame w cid r0 W0) as (s & Ht' & Hsl & Ho' & _).
        apply (silent_park w cid s W); auto.
        - now rewrite Ht', Ht0.
        - now rewrite Ho'. }
      destruct (inbox W !! w) as [[| m rest] |].
      * destruct (decide (w ∈ gone W)); [apply Hfin; auto | exact HW].
      * match goal with |- context [handle_client_message _ _ _ _ ?W0] =>
          destruct (handle_client_message None E w m W0) as [W' r] eqn:Hh
        end.
        pose proof Hh as Hh'.
        apply handle_client_message_handled in Hh' as (Ht' & _).
        apply handle_client_message_cpython in Hh as [Hr Ho']; [| exact Hd].
        assert (Ho'' : Forall (fun wm => is_data (snd wm) = false) (outbox W')).
        { destruct Ho' as [-> | (msg & Hm & ->)]; [exact Ho |].
          constructor; [exact Hm | exact Ho]. }
        destruct Hr as [-> | ->]; simpl in *.
        -- apply (silent_park w cid AwaitMessage W); auto.
           simpl. now rewrite Ht'.
        -- apply Hfin; auto.
      * destruct (decide (w ∈ gone W)); [apply Hfin; auto | exact HW].
    + specialize (Ht w _ Hw). discriminate.
  - destruct (broadcast_frame E W) as (Ht' & _ & _ & stats & cs & Hn & Ho').
    split; [| split; [| exact Hd']].
    + rewrite Ho'. apply Forall_app. split; [| exact Ho].
      clear Ho'. induction cs as [| c cs IH]; constructor; [| exact IH].
      simpl. apply neutral_is_not_data, Hn.
    + rewrite Ht'. exact Ht.
Qed.

Lemma silent_initial : silent initial_world.
Proof.
  split; [constructor |]. split; [| constructor].
  intros w t. simpl. rewrite lookup_empty. discriminate.
Qed.

Lemma run_events_silent E evs :
  forall W, silent W -> silent (run_events None E evs W).
Proof.
  induction evs as [| ev evs IH]; intros W HW; simpl; [exact HW |].
  apply IH, step_silent, HW.
Qed.

(** X20: with the module [random] of CPython the server never streams: in every
    run, whatever the clients send, no data message is delivered to any
    connection and no handler is ever suspended in the streaming loop (the
    first [generate_data_point] of every subscription raises, and the
    handler only prints the exception). *)
Theorem cpython_server_never_streams :
  forall (E : Entropy) (evs : list event),
    let W := run_events cpython_random_sin E evs initial_world in
    (forall w s dp t, (w, Data s dp t) ∉ outbox W) /\
    (forall w cid s f,
       tasks W !! w <> Some {| client_id := cid; at_point := Sleeping s f |}).
Proof.
  intros E evs W.
  destruct (run_events_silent E evs _ silent_initial) as (Ho & Ht & _).
  fold cpython_random_sin in Ho, Ht. fold W in Ho, Ht. split.
  - intros w s dp t Hin. rewrite Forall_forall in Ho.
    apply Ho in Hin. discriminate.
  - intros w cid s f Hw. apply Ht in Hw. discriminate.
Qed.

Lemma generate_callable_never_raises sin E g n g' n' e :
  generate_data_point (Some sin) E g n = (g', n', Raise e) -> False.
Proof.
  unfold generate_data_point.
  match goal with |- context [update_fields _ _ ?t ?v ?items ?d ?o ?m] =>
    destruct (update_fields_returns sin E t v items d o m)
      as (bv & n1 & data & ->)
  end.
  discriminate.
Qed.

(** X21: with a callable [random.sin], a [subscribe] whose frequency cannot be
    divided by 1000.0 (a string, [null], a list, an integer too large for a
    float) is acknowledged and answered with exactly one data message; the
    exception of [frequency / 1000.0] is only printed, the handler returns
    and the session waits for its next message with no loop running. *)
Theorem bad_frequency_streams_once :
  forall (sin : Q -> Q) (E : Entropy) (w : ws) (fields : list (string * json))
         (e : exn) (W W' : World) (r : result progress),
    obj_get fields "type" = Some (JStr "subscribe") ->
    let source := default (JStr "stock") (obj_get fields "source") in
    let frequency := default (JInt 500) (obj_get fields "frequency") in
    hashable source = true ->
    sleep_seconds frequency = Raise e ->
    w ∉ gone W ->
    w ∈ clients (server W) ->
    handle_client_message (Some sin) E w (Json (JObj fields)) W = (W', r) ->
    r = Return Completed /\
    (exists dp t t',
       outbox W'
       = (w, Data source dp t') :: (w, Subscribed source frequency t)
           :: outbox W) /\
    printed W' = ErrorHandling e :: printed W.
Proof.
  intros sin E w fields e W W' r Ht source frequency Hh Hf Hg Hc.
  subst source frequency. unfold_monad. unfold dict_contains. simpl.
  rewrite Ht. simpl.
  destruct (obj_get fields "source") as [src |];
    destruct (obj_get fields "frequency") as [freq |]; simpl in *;
    rewrite ?Hh, ?Hf; intros H;
    repeat (case_match; simplify_eq/=); try absurd_raise;
    try match goal with
      | Hb : bool_decide _ = false |- _ =>
          apply bool_decide_eq_false in Hb; contradiction
      end;
    eauto 10.
  all: try (exfalso; eapply dict_lookup_appended; [| eassumption];
            first [assumption | reflexivity]).
  all: exfalso; eapply generate_callable_never_raises; eassumption.
Qed.

Lemma bad_frequency_streams_once_witness :
  let W := run_events (Some (fun _ => 0%Q)) steady [Connect 1] initial_world in
  let m := Json (JObj [("type", JStr "subscribe");
                       ("frequency", JStr "fast")]) in
  printed (fst (handle_client_message (Some (fun _ => 0%Q)) steady 1 m W))
  = ErrorHandling TypeError :: printed W.
Proof.
  intros W m.
  refine (proj2 (proj2 (bad_frequency_streams_once (fun _ => 0%Q) steady 1
            [("type", JStr "subscribe"); ("frequency", JStr "fast")]
            TypeError W _
            (snd (handle_client_message (Some (fun _ => 0%Q)) steady 1 m W))
            _ _ _ _ _ _))).
  - reflexivity.
  - reflexivity.
  - reflexivity.
  - vm_compute. discriminate.
  - vm_compute. reflexivity.
  - vm_compute. reflexivity.
Defined.

(** X22: one turn of the streaming loop for a registered session, with a
    callable [random.sin]: the data point is generated first, on the shared
    generator of the source, which is rewritten in place; on an open connection
    the data point is sent and the loop goes to sleep (or, when [frequency /
    1000.0] raises, prints the exception and ends); on a closed connection
    nothing is sent and the loop ends quietly, but the generator has advanced
    all the same: the data point is lost. *)
Theorem streaming_turn_generates_before_it_sends :
  forall (sin : Q -> Q) (E : Entropy) (w : ws) (source frequency : json)
         (g : DataGenerator) (W : World),
    w ∈ clients (server W) ->
    dict_lookup (data_generators (server W)) source = Some g ->
    let out := generate_data_point (Some sin) E g (cursor W) in
    let turn := resume_streaming (Some sin) E w source frequency W in
    exists dp,
      snd out = Return dp /\
      data_generators (server (fst turn))
      = dict_update (data_generators (server W)) source (fst (fst out)) /\
      (w ∈ gone W ->
       snd turn = Return Completed /\
       outbox (fst turn) = outbox W /\ printed (fst turn) = printed W) /\
      (w ∉ gone W ->
       outbox (fst turn)
       = (w, Data source dp (clock E (snd (fst out)))) :: outbox W /\
       match sleep_seconds frequency with
       | Return _ =>
           snd turn = Return (Asleep source frequency) /\
           printed (fst turn) = printed W
       | Raise e =>
           snd turn = Return Completed /\
           printed (fst turn) = ErrorHandling e :: printed W
       end).
Proof.
  intros sin E w source frequency g W Hc Hl out turn. subst out turn.
  unfold_monad. rewrite (bool_decide_eq_true_2 _ Hc), Hl.
  destruct (generate_data_point (Some sin) E g (cursor W)) as [[g' n] [dp | e]]
    eqn:Hg; [| exfalso; eapply generate_callable_never_raises, Hg].
  exists dp. simpl. split; [reflexivity |].
  destruct (decide (w ∈ gone W)) as [Hin | Hout]; simpl.
  - split; [reflexivity |]. split; [auto | intros Hn; contradiction].
  - destruct (sleep_seconds frequency) as [q | e] eqn:Hs; simpl.
    + split; [reflexivity |]. split; [intros Hn; contradiction | auto].
    + destruct (sleep_seconds_raises _ _ Hs) as [-> | ->]; simpl;
        (split; [reflexivity |]); (split; [intros Hn; contradiction | auto]).
Qed.

Lemma streaming_turn_generates_before_it_sends_witness :
  let W := run_events (Some (fun _ => 0%Q)) steady
             [Connect 1; Receive 1 subscribe_frame; Resume 1; Drop 1]
             initial_world in
  exists g,
    dict_lookup (data_generators (server W)) (JStr "stock") = Some g /\
    data_generators
      (server (fst (resume_streaming (Some (fun _ => 0%Q)) steady 1
                      (JStr "stock") (JInt 500) W)))
    = dict_update (data_generators (server W)) (JStr "stock")
        (fst (fst (generate_data_point (Some (fun _ => 0%Q)) steady g
                     (cursor W)))).
Proof.
  intros W. eexists. split; [vm_compute; reflexivity |].
  match goal with |- context [generate_data_point _ _ ?g _] =>
    destruct (streaming_turn_generates_before_it_sends (fun _ => 0%Q) steady 1
                (JStr "stock") (JInt 500) g W)
      as (dp & _ & Hd & _)
  end.
  - vm_compute. reflexivity.
  - vm_compute. reflexivity.
  - exact Hd.
Defined.
